(** * Local-first, versioned asset synchronisation: lib/storage.js and
      lib/cloudAssets.js

    A shallow embedding of the storage layer of the menu board: the
    IndexedDB cache (idb-keyval), the Supabase storage client, the session
    and the clock as the code sees them, and the functions of
    [lib/storage.js] and [lib/cloudAssets.js] written over them in a small
    state, exception and trace monad.

    [lib/storage.js] is taken in two revisions, which share everything but
    the reconcilers and [removeKey]: the one that reconciles through the
    folder listing alone, and the one that first tries to download the
    stored version path directly. [lib/cloudAssets.js] is taken in the
    revision both of them import from (versioned folders, legacy mirror and
    legacy fallback switched off).

    Strings are strings of bytes, compared byte by byte, which is how
    JavaScript compares strings of ASCII characters. *)

From Stdlib Require Import ZArith NArith List Ascii String Lia.
From stdpp Require Import base option gmap strings list.

Set Warnings "-register-all".

(** ** JavaScript values held by the cache *)

(** A [Blob] (or a [File], which is a [Blob] with a [name]). *)
Record blob := Blob {
  blob_bytes : string;
  blob_type : string;
  blob_name : option string;
}.

(** The values [JSON.parse] can produce. Numbers are kept as integers: the
    code only ever tests a value for being [null] or [undefined]. *)
Inductive json :=
| JNull
| JBool (b : bool)
| JNum (n : Z)
| JStr (s : string)
| JArr (items : list json)
| JObj (fields : list (string * json)).

(** What a structured-clone store can hold: [undefined], plain data, blobs. *)
Inductive jsval :=
| VUndefined
| VJson (j : json)
| VBlob (b : blob).

Module Js.

(** [v !== undefined && v !== null] *)
Definition present (v : jsval) : bool :=
  match v with
  | VUndefined | VJson JNull => false
  | _ => true
  end.

(** Truthiness of a string: only the empty string is falsy. *)
Definition truthy_string (s : string) : bool :=
  match s with
  | EmptyString => false
  | String _ _ => true
  end.

(** [ToBoolean(v)] *)
Definition truthy (v : jsval) : bool :=
  match v with
  | VUndefined => false
  | VJson JNull => false
  | VJson (JBool b) => b
  | VJson (JNum n) => negb (n =? 0)%Z
  | VJson (JStr s) => truthy_string s
  | VJson (JArr _) | VJson (JObj _) => true
  | VBlob _ => true
  end.

(** [v === s] for a string [s]: strict equality never coerces. *)
Definition strict_eq_string (v : jsval) (s : string) : bool :=
  match v with
  | VJson (JStr s') => bool_decide (s' = s)
  | _ => false
  end.

(** An optional string used as a condition ([null], [undefined] and the
    empty string are falsy). *)
Definition truthy_opt (o : option string) : bool :=
  match o with
  | Some s => truthy_string s
  | None => false
  end.

(** [o || null] on an optional string. *)
Definition or_null (o : option string) : option string :=
  if truthy_opt o then o else None.

Fixpoint assoc (k : string) (fields : list (string * json)) : option json :=
  match fields with
  | [] => None
  | (k', v) :: rest => if bool_decide (k' = k) then Some v else assoc k rest
  end.

(** [typeof v.name === 'string'] together with the value read. *)
Definition name_of (v : jsval) : option string :=
  match v with
  | VBlob b => blob_name b
  | VJson (JObj fields) =>
      match assoc "name" fields with
      | Some (JStr s) => Some s
      | _ => None
      end
  | _ => None
  end.

(** *** String methods used by the code *)

Fixpoint drop_spaces (s : string) : string :=
  match s with
  | EmptyString => EmptyString
  | String a s' => if Ascii.is_space a then drop_spaces s' else s
  end.

(** [s.trim()] *)
Definition trim (s : string) : string :=
  String.rev (drop_spaces (String.rev (drop_spaces s))).

(** [s.startsWith(p)] *)
Fixpoint starts_with (p s : string) : bool :=
  match p, s with
  | EmptyString, _ => true
  | String a p', String b s' => bool_decide (a = b) && starts_with p' s'
  | String _ _, EmptyString => false
  end.

(** [s.includes(sub)] *)
Fixpoint includes (sub s : string) : bool :=
  starts_with sub s ||
  match s with
  | EmptyString => false
  | String _ s' => includes sub s'
  end.

(** [s.endsWith(suf)] *)
Definition ends_with (suf s : string) : bool :=
  starts_with (String.rev suf) (String.rev s).

Fixpoint last_segment_go (cur s : string) : string :=
  match s with
  | EmptyString => cur
  | String a s' =>
      if bool_decide (a = "/"%char) then last_segment_go s' s'
      else last_segment_go cur s'
  end.

(** [s.split('/').pop()] *)
Definition last_segment (s : string) : string := last_segment_go s s.

End Js.

(** ** The outside world *)

(** How an awaited call settles: it resolves with a value or it throws. *)
Inductive outcome (A : Type) :=
| Resolved (a : A)
| Rejected.
Arguments Resolved {A} a.
Arguments Rejected {A}.

(** [data.session] of [supabase.auth.getSession()], reduced to the one field
    the code reads, [session.user?.id]. *)
Record session := Session { session_user_id : option string }.

(** The [{ data, error }] reply of [storage.list]: either the reply carries
    an error or no array, or it carries the names of the listed entries (an
    entry without a name counts as the empty name; both are falsy). *)
Inductive list_reply :=
| ListFailed
| ListNames (names : list string).

(** The collaborators of the layer. Every remote call is answered by an
    oracle indexed by the number of remote calls made so far, so a remote
    store that changes between two calls (another writer, a deletion after a
    listing, a transient outage) is an environment like any other. *)
Record env := Env {
  (** [getCurrentUser()] of lib/session.js; the same throughout a run *)
  getCurrentUser : option string;
  (** [supabase.auth.getSession()]: [data.session] *)
  auth_getSession : nat → outcome (option session);
  (** [supabase.auth.getUser()]: [data.user.id] *)
  auth_getUser : nat → outcome (option string);
  (** [bucket.list(folder, { limit })] *)
  storage_list : nat → string → nat → outcome list_reply;
  (** [bucket.download(path)]: the blob when [!error && data] *)
  storage_download : nat → string → outcome (option blob);
  (** [bucket.upload(path, body, { upsert })]: [true] when [error] is set *)
  storage_upload : nat → string → jsval → bool → outcome bool;
  (** [bucket.remove(paths)] *)
  storage_remove : nat → list string → outcome unit;
  (** [Date.now()] in milliseconds *)
  Date_now : nat → N;
  (** [JSON.parse(text)]; [None] is a [SyntaxError] *)
  JSON_parse : string → option json;
  (** [JSON.stringify(v)]; it can throw *)
  JSON_stringify : jsval → outcome string;
}.

(** What one run does to the outside, in order. *)
Inductive event :=
| EvGetSession
| EvGetUser
| EvList (folder : string) (reply : outcome list_reply)
| EvDownload (path : string) (reply : outcome (option blob))
| EvUpload (path : string) (upsert : bool) (reply : outcome bool)
| EvRemove (paths : list string)
| EvNotify.

(** The client side: the idb-keyval store and the count of remote calls. *)
Record world := World {
  idb : gmap string jsval;
  tick : nat;
}.

(** ** The monad of asynchronous functions

    An [async] function is run from a world; it resolves or throws, leaves a
    world behind and a trace of what it did. A [throw] keeps the writes made
    before it. *)
Definition M (A : Type) : Type := world → outcome A * world * list event.

Definition ret {A} (a : A) : M A := fun w => (Resolved a, w, []).

Definition throw {A} : M A := fun w => (Rejected, w, []).

Definition bind {A B} (m : M A) (f : A → M B) : M B := fun w =>
  match m w with
  | (Resolved a, w1, t1) =>
      match f a w1 with
      | (r, w2, t2) => (r, w2, t1 ++ t2)
      end
  | (Rejected, w1, t1) => (Rejected, w1, t1)
  end.

(** [try { body } catch { handler }] *)
Definition try_catch {A} (body handler : M A) : M A := fun w =>
  match body w with
  | (Resolved a, w1, t1) => (Resolved a, w1, t1)
  | (Rejected, w1, t1) =>
      match handler w1 with
      | (r, w2, t2) => (r, w2, t1 ++ t2)
      end
  end.

Declare Scope async_scope.
Delimit Scope async_scope with async.
Notation "x <- m ;; k" := (bind m (fun x => k))
  (at level 100, m at next level, right associativity) : async_scope.
Notation "'await' m ;; k" := (bind m (fun _ => k))
  (at level 100, m at next level, right associativity) : async_scope.
Local Open Scope async_scope.

(** A remote call: ask the oracle at the current tick, record the event. *)
Definition remote {A} (ask : nat → outcome A) (ev : outcome A → event) : M A :=
  fun w =>
    let r := ask (tick w) in
    (r, {| idb := idb w; tick := S (tick w) |}, [ev r]).

(** ** idb-keyval *)
Module Idb.

(** [get(key)]: [undefined] for a key that is not there. *)
Definition get (key : string) : M jsval := fun w =>
  (Resolved (default VUndefined (idb w !! key)), w, []).

(** [set(key, value)] *)
Definition set (key : string) (v : jsval) : M unit := fun w =>
  (Resolved tt, {| idb := <[key := v]> (idb w); tick := tick w |}, []).

(** [del(key)]: deleting a key that is not there does nothing. *)
Definition del (key : string) : M unit := fun w =>
  (Resolved tt, {| idb := delete key (idb w); tick := tick w |}, []).

End Idb.

(** ** lib/cloudAssets.js *)
Module CloudAssets.

(** [!IS_LOCALHOST_APP && false]: server signing is off in every build, so
    the presigned upload and download branches guarded by it never run and
    are left out below. *)
Definition USE_SERVER_SIGNING : bool := false.

Definition ENABLE_LEGACY_MIRROR : bool := false.

Definition DISABLE_LEGACY_FALLBACK : bool := true.

(** [data?.session?.user?.id || null] *)
Definition getUserId (E : env) : M (option string) :=
  s <- remote (auth_getSession E) (fun _ => EvGetSession);;
  ret (Js.or_null (s ≫= session_user_id)).

(** The backslash character, code 92 *)
Definition backslash : ascii := ascii_of_nat 92.

Fixpoint replace_backslashes (s : string) : string :=
  match s with
  | EmptyString => EmptyString
  | String a s' =>
      String (if bool_decide (a = backslash) then "/"%char else a)
             (replace_backslashes s')
  end.

Fixpoint drop_leading_slashes (s : string) : string :=
  match s with
  | EmptyString => EmptyString
  | String a s' =>
      if bool_decide (a = "/"%char) then drop_leading_slashes s' else s
  end.

(** [normalizeName(name)]: every backslash becomes a slash, then the
    slashes in front are dropped; nothing for a falsy name. *)
Definition normalizeName (name : string) : string :=
  if Js.truthy_string name
  then drop_leading_slashes (replace_backslashes name)
  else EmptyString.

(** The comparator [(a, b) => (a.name < b.name ? 1 : -1)]: positive when
    [a] has to come after [b]. Strings compare by code unit. *)
Definition comes_after (a b : string) : bool := String.ltb a b.

Fixpoint insert_sorted (x : string) (l : list string) : list string :=
  match l with
  | [] => [x]
  | y :: l' => if comes_after x y then y :: insert_sorted x l' else x :: l
  end.

(** [names.sort(comparator)], as an insertion sort. The comparator never
    answers 0, so the order of equal names is up to the engine; the name
    that comes first is the same for any of them. *)
Definition sort_names (l : list string) : list string :=
  foldr insert_sorted [] l.

(** [[...list].filter((x) => x?.name).sort(...)[0]] *)
Definition pick_latest (names : list string) : option string :=
  head (sort_names (filter (fun n => Is_true (Js.truthy_string n)) names)).

Definition listLatestVersionPath (E : env) (userId assetKey : string)
  : M (option string) :=
  let folder := userId +:+ "/" +:+ assetKey in
  try_catch
    (reply <- remote (fun t => storage_list E t folder 200) (EvList folder);;
     match reply with
     | ListFailed => ret None
     | ListNames [] => ret None
     | ListNames names =>
         match pick_latest names with
         | None => ret None
         | Some latest => ret (Some (folder +:+ "/" +:+ normalizeName latest))
         end
     end)
    (ret None).

(** [upsertLegacyAsset]: nothing while the mirror is switched off; else a
    best-effort overwrite of the fixed path, whose failure is swallowed. *)
Definition upsertLegacyAsset (E : env) (userId : option string)
    (assetKey : string) (fileOrBlob : jsval) : M unit :=
  if negb ENABLE_LEGACY_MIRROR then ret tt
  else if negb (Js.truthy_opt userId) || negb (Js.truthy_string assetKey)
          || negb (Js.truthy fileOrBlob) then ret tt
  else
    let legacyPath := default EmptyString userId +:+ "/" +:+ assetKey in
    try_catch
      (await remote (fun t => storage_upload E t legacyPath fileOrBlob true)
                    (EvUpload legacyPath true);;
       ret tt)
      (ret tt).

(** [file.name.trim()] when it is a non-blank string, else [assetKey.bin] *)
Definition inferredFilename (assetKey : string) (file : jsval) : string :=
  match Js.name_of file with
  | Some n =>
      if Js.truthy_string (Js.trim n) then Js.trim n else assetKey +:+ ".bin"
  | None => assetKey +:+ ".bin"
  end.

Definition digit_char (d : N) : ascii :=
  ascii_of_N (48 + d).

Fixpoint decimal_go (fuel : nat) (n : N) (acc : string) : string :=
  match fuel with
  | O => acc
  | S fuel' =>
      let acc' := String (digit_char (n mod 10)) acc in
      if (n <? 10)%N then acc' else decimal_go fuel' (n / 10) acc'
  end.

(** A non-negative integer interpolated into a template literal: its
    decimal digits. A number has at most as many decimal digits as binary
    ones, which bounds the recursion. *)
Definition decimal (n : N) : string :=
  decimal_go (S (N.to_nat (N.log2 n))) n EmptyString.

(** The name under which [uploadAsset] stores a version *)
Definition versionName (now : N) (filename : string) : string :=
  decimal now +:+ "-" +:+ filename.

Definition objectPathOf (userId assetKey : string) (now : N)
    (filename : string) : string :=
  userId +:+ "/" +:+ assetKey +:+ "/" +:+ versionName now filename.

(** [uploadAsset({ assetKey, file, contentType })]: [None] is the [null]
    returned for a missing argument, otherwise the path written. The
    content type is passed on to the storage client and decides nothing. *)
Definition uploadAsset (E : env) (assetKey : string) (file : jsval)
  : M (option string) :=
  if negb (Js.truthy_string assetKey) || negb (Js.truthy file) then ret None
  else
    let filename := inferredFilename assetKey file in
    userId <- getUserId E;;
    match userId with
    | None => throw
    | Some uid =>
        fun w =>
          let objectPath := objectPathOf uid assetKey (Date_now E (tick w)) filename in
          (uploadError <-
             remote (fun t => storage_upload E t objectPath file false)
                    (EvUpload objectPath false);;
           if uploadError : bool then throw
           else
             await upsertLegacyAsset E userId assetKey file;;
             ret (Some objectPath)) w
    end.

(** [new File([JSON.stringify(data ?? {})], assetKey + '.json', ...)] *)
Definition uploadJsonAsset (E : env) (assetKey : string) (data : jsval)
  : M (option string) :=
  if negb (Js.truthy_string assetKey) then ret None
  else
    match JSON_stringify E (if Js.present data then data else VJson (JObj [])) with
    | Rejected => throw
    | Resolved text =>
        let file := VBlob {| blob_bytes := text;
                             blob_type := "application/json";
                             blob_name := Some (assetKey +:+ ".json") |} in
        uploadAsset E assetKey file
    end.

Definition download (E : env) (path : string) : M (option blob) :=
  remote (fun t => storage_download E t path) (EvDownload path).

Definition downloadAssetBlob (E : env) (assetKey : string) : M (option blob) :=
  if negb (Js.truthy_string assetKey) then ret None
  else
    userId <- getUserId E;;
    match userId with
    | None => ret None
    | Some uid =>
        latestPath <- listLatestVersionPath E uid assetKey;;
        got <-
          match latestPath with
          | Some p =>
              try_catch
                (data <- download E p;;
                 match data with
                 | Some b =>
                     await upsertLegacyAsset E userId assetKey (VBlob b);;
                     ret (Some b)
                 | None => ret None
                 end)
                (ret None)
          | None => ret None
          end;;
        match got with
        | Some b => ret (Some b)
        | None =>
            if negb DISABLE_LEGACY_FALLBACK
            then
              try_catch (download E (uid +:+ "/" +:+ assetKey)) (ret None)
            else ret None
        end
    end.

Definition downloadAssetBlobByPath (E : env) (objectPath : string)
  : M (option blob) :=
  if negb (Js.truthy_string objectPath) then ret None
  else try_catch (download E objectPath) (ret None).

(** [JSON.parse(await blob.text())], with a parse error turned into
    [null]. [None] is the [null] returned without any parsed value. *)
Definition downloadJsonAsset (E : env) (assetKey : string) : M (option json) :=
  blob <- downloadAssetBlob E assetKey;;
  match blob with
  | None => ret None
  | Some b => ret (JSON_parse E (blob_bytes b))
  end.

(** [getLatestAssetVersion(assetKey)]: the [version] of the reply, [None]
    for [null]. *)
Definition getLatestAssetVersion (E : env) (assetKey : string)
  : M (option string) :=
  if negb (Js.truthy_string assetKey) then ret None
  else
    userId <- getUserId E;;
    match userId with
    | None => ret None
    | Some uid =>
        latestPath <- listLatestVersionPath E uid assetKey;;
        match latestPath with
        | Some p => ret (Some p)
        | None =>
            if negb DISABLE_LEGACY_FALLBACK
            then ret (Some (uid +:+ "/" +:+ assetKey))
            else ret None
        end
    end.

End CloudAssets.

(** ** lib/storage.js *)

(** What the caller passes as [onRemoteDiff]: a function that returns or one
    that throws. *)
Inductive callback :=
| CbReturns
| CbThrows.

(** [{ updated: false }] or [{ updated: true, data }] *)
Inductive sync_result :=
| NotUpdated
| Updated (data : jsval).

(** The part of the file that its revisions share: scoping, the local load
    with its one-time migration, the version marker, the two saves. *)
Module Storage.

Definition VERSION_SUFFIX : string := "__remoteVersion".

(** [withUserScope(key)]: the scoped key and the user *)
Definition withUserScope (E : env) (key : string) : string * option string :=
  match getCurrentUser E with
  | Some user =>
      if Js.truthy_string user then (user +:+ "__" +:+ key, Some user)
      else (key, None)
  | None => (key, None)
  end.

Definition versionKey (key : string) : string := key +:+ VERSION_SUFFIX.

(** [loadLocalValue(key)], reduced to its [data] field: every caller in the
    file reads nothing else. *)
Definition loadLocalValue (E : env) (key : string) : M jsval :=
  let '(scopedKey, user) := withUserScope E key in
  data <- Idb.get scopedKey;;
  if Js.present data then ret data
  else if Js.truthy_opt user && negb (bool_decide (scopedKey = key)) then
    fallback <- Idb.get key;;
    if Js.present fallback then
      await Idb.set scopedKey fallback;;
      await Idb.del key;;
      ret fallback
    else ret data
  else ret data.

Definition getStoredVersion (E : env) (key : string) : M jsval :=
  Idb.get (fst (withUserScope E (versionKey key))).

(** [setStoredVersion(key, version)], for the paths the uploads and the
    listing return: [None] is [null]. *)
Definition setStoredVersion (E : env) (key : string) (version : option string)
  : M unit :=
  match version with
  | Some v =>
      if Js.truthy_string v
      then Idb.set (fst (withUserScope E (versionKey key))) (VJson (JStr v))
      else ret tt
  | None => ret tt
  end.

Definition loadLocalBlob (E : env) (key : string) : M jsval :=
  loadLocalValue E key.

Definition loadLocalJson (E : env) (key : string) : M jsval :=
  loadLocalValue E key.

(** [supabase.auth.getSession()] as the storage functions use it: is there
    a session. *)
Definition hasSession (E : env) : M bool :=
  s <- remote (auth_getSession E) (fun _ => EvGetSession);;
  ret (bool_decide (is_Some s)).

Definition saveBlob (E : env) (key : string) (blob : jsval) : M unit :=
  let scopedKey := fst (withUserScope E key) in
  await Idb.set scopedKey blob;;
  try_catch
    (session <- hasSession E;;
     if negb session then ret tt
     else
       remotePath <- CloudAssets.uploadAsset E key blob;;
       setStoredVersion E key remotePath)
    (ret tt).

Definition saveJson (E : env) (key : string) (data : jsval) : M unit :=
  let scopedKey := fst (withUserScope E key) in
  await Idb.set scopedKey data;;
  try_catch
    (session <- hasSession E;;
     if negb session then ret tt
     else
       remotePath <- CloudAssets.uploadJsonAsset E key data;;
       setStoredVersion E key remotePath)
    (ret tt).

(** [if (onRemoteDiff) onRemoteDiff()] *)
Definition notify (onRemoteDiff : option callback) : M unit :=
  match onRemoteDiff with
  | None => ret tt
  | Some cb => fun w =>
      (match cb with CbReturns => Resolved tt | CbThrows => Rejected end,
       w, [EvNotify])
  end.

(** [localVersion && localVersion === remotePath] *)
Definition sameVersion (localVersion : jsval) (remotePath : string) : bool :=
  Js.truthy localVersion && Js.strict_eq_string localVersion remotePath.

End Storage.

(** The revision that reconciles through the listing alone. *)
Module StorageA.
Import Storage.

Definition syncBlobFromCloud (E : env) (key : string)
    (onRemoteDiff : option callback) : M sync_result :=
  try_catch
    (session <- hasSession E;;
     if negb session then ret NotUpdated
     else
       remoteVersion <- CloudAssets.getLatestAssetVersion E key;;
       match Js.or_null remoteVersion with
       | None => ret NotUpdated
       | Some version =>
           localVersion <- getStoredVersion E key;;
           if sameVersion localVersion version then ret NotUpdated
           else
             await notify onRemoteDiff;;
             blob <- CloudAssets.downloadAssetBlob E key;;
             match blob with
             | None => ret NotUpdated
             | Some b =>
                 let scopedKey := fst (withUserScope E key) in
                 await Idb.set scopedKey (VBlob b);;
                 await setStoredVersion E key (Some version);;
                 ret (Updated (VBlob b))
             end
       end)
    (ret NotUpdated).

Definition syncJsonFromCloud (E : env) (key : string)
    (onRemoteDiff : option callback) : M sync_result :=
  try_catch
    (session <- hasSession E;;
     if negb session then ret NotUpdated
     else
       remoteVersion <- CloudAssets.getLatestAssetVersion E key;;
       match Js.or_null remoteVersion with
       | None => ret NotUpdated
       | Some version =>
           localVersion <- getStoredVersion E key;;
           if sameVersion localVersion version then ret NotUpdated
           else
             await notify onRemoteDiff;;
             json <- CloudAssets.downloadJsonAsset E key;;
             match json with
             | None => ret NotUpdated
             | Some j =>
                 if negb (Js.present (VJson j)) then ret NotUpdated
                 else
                   let scopedKey := fst (withUserScope E key) in
                   await Idb.set scopedKey (VJson j);;
                   await setStoredVersion E key (Some version);;
                   ret (Updated (VJson j))
             end
       end)
    (ret NotUpdated).

Definition removeKey (E : env) (key : string) : M unit :=
  let scopedKey := fst (withUserScope E key) in
  await Idb.del scopedKey;;
  await Idb.del (fst (withUserScope E (versionKey key)));;
  try_catch
    (session <- hasSession E;;
     if negb session then ret tt
     else
       userId <- remote (auth_getUser E) (fun _ => EvGetUser);;
       match Js.or_null userId with
       | None => ret tt
       | Some uid =>
           let paths := [uid +:+ "/" +:+ key] in
           await remote (fun t => storage_remove E t paths)
                        (fun _ => EvRemove paths);;
           ret tt
       end)
    (ret tt).

End StorageA.

(** The revision that first tries the stored version path directly. *)
Module StorageB.
Import Storage.

(** [typeof p === 'string' && p.includes('/' + key + '/') &&
     !p.endsWith('/' + key) && p.split('/').pop()?.includes('-')] *)
Definition looksLikeFilePath (key : string) (p : jsval) : option string :=
  match p with
  | VJson (JStr s) =>
      if Js.includes ("/" +:+ key +:+ "/") s
         && negb (Js.ends_with ("/" +:+ key) s)
         && Js.includes "-" (Js.last_segment s)
      then Some s else None
  | _ => None
  end.

Definition syncBlobFromCloud (E : env) (key : string)
    (onRemoteDiff : option callback) : M sync_result :=
  try_catch
    (session <- hasSession E;;
     if negb session then ret NotUpdated
     else
       localVersion <- getStoredVersion E key;;
       remoteVersion <- CloudAssets.getLatestAssetVersion E key;;
       let remotePath := Js.or_null remoteVersion in
       if match remotePath with
          | Some p => sameVersion localVersion p
          | None => false
          end
       then ret NotUpdated
       else
         await notify onRemoteDiff;;
         blob <-
           match looksLikeFilePath key localVersion with
           | Some path => CloudAssets.downloadAssetBlobByPath E path
           | None => CloudAssets.downloadAssetBlob E key
           end;;
         match blob with
         | None => ret NotUpdated
         | Some b =>
             let scopedKey := fst (withUserScope E key) in
             await Idb.set scopedKey (VBlob b);;
             await setStoredVersion E key remotePath;;
             ret (Updated (VBlob b))
         end)
    (ret NotUpdated).

Definition syncJsonFromCloud (E : env) (key : string)
    (onRemoteDiff : option callback) : M sync_result :=
  try_catch
    (session <- hasSession E;;
     if negb session then ret NotUpdated
     else
       localVersion <- getStoredVersion E key;;
       remoteVersion <- CloudAssets.getLatestAssetVersion E key;;
       let remotePath := Js.or_null remoteVersion in
       if match remotePath with
          | Some p => sameVersion localVersion p
          | None => false
          end
       then ret NotUpdated
       else
         await notify onRemoteDiff;;
         json <-
           match looksLikeFilePath key localVersion with
           | Some path =>
               blob <- CloudAssets.downloadAssetBlobByPath E path;;
               match blob with
               | Some b => ret (JSON_parse E (blob_bytes b))
               | None => ret None
               end
           | None => CloudAssets.downloadJsonAsset E key
           end;;
         match json with
         | None => ret NotUpdated
         | Some j =>
             if negb (Js.present (VJson j)) then ret NotUpdated
             else
               let scopedKey := fst (withUserScope E key) in
               await Idb.set scopedKey (VJson j);;
               await setStoredVersion E key remotePath;;
               ret (Updated (VJson j))
         end)
    (ret NotUpdated).

(** The names of a listing that are truthy, each under [prefix] *)
Definition listedPaths (prefix : string) (reply : list_reply) : list string :=
  match reply with
  | ListFailed => []
  | ListNames names =>
      (fun n => prefix +:+ "/" +:+ n)
        <$> filter (fun n => Is_true (Js.truthy_string n)) names
  end.

Definition removeKey (E : env) (key : string) : M unit :=
  let scopedKey := fst (withUserScope E key) in
  await Idb.del scopedKey;;
  await Idb.del (fst (withUserScope E (versionKey key)));;
  try_catch
    (session <- hasSession E;;
     if negb session then ret tt
     else
       userId <- remote (auth_getUser E) (fun _ => EvGetUser);;
       match Js.or_null userId with
       | None => ret tt
       | Some uid =>
           let prefix := uid +:+ "/" +:+ key in
           listed <-
             try_catch
               (reply <- remote (fun t => storage_list E t prefix 200)
                                (EvList prefix);;
                ret (listedPaths prefix reply))
               (ret []);;
           let paths := listed ++ [prefix] in
           let paths := filter (fun p => Is_true (Js.truthy_string p)) paths in
           await remote (fun t => storage_remove E t paths)
                        (fun _ => EvRemove paths);;
           ret tt
       end)
    (ret tt).

End StorageB.

(** * Observations

    What the statements below look at: the functions of the two revisions
    taken together, the two slots of a key in the cache, what a trace shows
    and what a remote side that does not change is. *)

(** ** The revisions of lib/storage.js *)

(** [RevA] reconciles through the listing alone; [RevB] first tries the
    stored version path directly. *)
Inductive revision := RevA | RevB.

Inductive kind := OfBlob | OfJson.

(** [syncBlobFromCloud] and [syncJsonFromCloud] of either revision *)
Definition reconcile (rev : revision) (k : kind)
  : env → string → option callback → M sync_result :=
  match rev, k with
  | RevA, OfBlob => StorageA.syncBlobFromCloud
  | RevA, OfJson => StorageA.syncJsonFromCloud
  | RevB, OfBlob => StorageB.syncBlobFromCloud
  | RevB, OfJson => StorageB.syncJsonFromCloud
  end.

(** [removeKey] of either revision *)
Definition removeKey (rev : revision) : env → string → M unit :=
  match rev with
  | RevA => StorageA.removeKey
  | RevB => StorageB.removeKey
  end.

(** ** Runs *)

(** An empty cache before any remote call *)
Definition origin : world := {| idb := ∅; tick := 0 |}.

(** What an asynchronous call answers when it is run from [w] *)
Definition answer {A} (m : M A) (w : world) : outcome A := fst (fst (m w)).

(** [wp m w Q]: the run of [m] from [w] ends in a result, a world and a
    trace that satisfy [Q]. *)
Definition wp {A} (m : M A) (w : world)
    (Q : outcome A → world → list event → Prop) : Prop :=
  ∀ r w' t, m w = (r, w', t) → Q r w' t.

(** ** The cache *)

(** The key a value is cached under and the key of its version marker *)
Definition cacheKey (E : env) (key : string) : string :=
  fst (Storage.withUserScope E key).

Definition markerKey (E : env) (key : string) : string :=
  fst (Storage.withUserScope E (Storage.versionKey key)).

(** What the cache holds for [key], and the version marker of [key], as
    [get] would return them *)
Definition cached (E : env) (key : string) (w : world) : jsval :=
  default VUndefined (idb w !! cacheKey E key).

Definition marker (E : env) (key : string) (w : world) : jsval :=
  default VUndefined (idb w !! markerKey E key).

(** ** Traces *)

(** The listings and the downloads of a run, each with its reply *)
Definition listings (t : list event) : list (string * outcome list_reply) :=
  omap (fun ev => match ev with EvList f r => Some (f, r) | _ => None end) t.

Definition downloads (t : list event) : list (string * outcome (option blob)) :=
  omap (fun ev => match ev with EvDownload p r => Some (p, r) | _ => None end) t.

(** The paths of the uploads of new versions that the store accepted *)
Definition accepted_uploads (t : list event) : list string :=
  omap (fun ev => match ev with
                  | EvUpload p false (Resolved false) => Some p
                  | _ => None
                  end) t.

(** The answer of a download as the code reads it: a throw is caught and
    counts as no blob. *)
Definition blobOf (reply : outcome (option blob)) : option blob :=
  match reply with
  | Resolved (Some b) => Some b
  | _ => None
  end.

(** The blobs that downloads delivered *)
Definition delivered (t : list event) : list blob :=
  omap (fun '(_, r) => blobOf r) (downloads t).

(** How many times [onRemoteDiff] was called *)
Definition notifications (t : list event) : nat :=
  length (omap (fun ev => match ev with EvNotify => Some tt | _ => None end) t).

(** The path a listing makes the latest one: the greatest name, normalised,
    under the folder; none when the call threw, failed or listed nothing. *)
Definition latestOf (folder : string) (reply : outcome list_reply) : option string :=
  match reply with
  | Resolved (ListNames names) =>
      (fun n => folder +:+ "/" +:+ CloudAssets.normalizeName n)
        <$> CloudAssets.pick_latest names
  | _ => None
  end.

(** The latest path that the first listing of a run reported, if any *)
Definition listed_latest (t : list event) : option string :=
  match head (listings t) with
  | Some (folder, reply) => latestOf folder reply
  | None => None
  end.

(** The value a reconciler reports came out of a delivered blob: the blob
    itself, or the document its bytes parse to. *)
Definition fetched (k : kind) (E : env) (d : jsval) (t : list event) : Prop :=
  ∃ b, b ∈ delivered t ∧
       match k with
       | OfBlob => d = VBlob b
       | OfJson => ∃ j, JSON_parse E (blob_bytes b) = Some j ∧ d = VJson j
       end.

(** ** A remote side that stays as it is *)

(** It answers the same way whenever it is asked: nobody writes to it or
    deletes from it, and it neither goes away nor comes back. *)
Definition steady (E : env) : Prop :=
  (∀ t t', auth_getSession E t = auth_getSession E t') ∧
  (∀ t t' folder limit,
     storage_list E t folder limit = storage_list E t' folder limit) ∧
  (∀ t t' path, storage_download E t path = storage_download E t' path).

(** Against a steady remote side a call answers what it would answer from
    the origin, whatever the cache holds and however many calls were made
    before, and it leaves the cache alone. *)
Definition settled {A} (m : M A) : Prop :=
  ∀ w, ∃ tk t, m w = (answer m origin, {| idb := idb w; tick := tk |}, t).

(** ** Names of versions *)

(** Reading a decimal numeral back *)
Definition is_digit (c : ascii) : Prop := (48 ≤ N_of_ascii c < 58)%N.

Fixpoint all_digits (s : string) : Prop :=
  match s with
  | EmptyString => True
  | String c s' => is_digit c ∧ all_digits s'
  end.

Fixpoint value_from (acc : N) (s : string) : N :=
  match s with
  | EmptyString => acc
  | String c s' => value_from (10 * acc + (N_of_ascii c - 48)) s'
  end.

Definition value (s : string) : N := value_from 0 s.

(** The greatest of a list of names, scanning from the right and keeping
    the earlier of two equal names *)
Definition max_name (l : list string) : option string :=
  foldr (fun x acc =>
           match acc with
           | None => Some x
           | Some y => Some (if CloudAssets.comes_after x y then y else x)
           end) None l.

(** * Environments to run the code in *)
Module Examples.

Definition png : blob :=
  {| blob_bytes := "PNG1"; blob_type := "image/png"; blob_name := None |}.

(** A remote side that cannot be reached, seen by a given current user *)
Definition unreachable_as (user : option string) : env :=
  {| getCurrentUser := user;
     auth_getSession := fun _ => Rejected;
     auth_getUser := fun _ => Rejected;
     storage_list := fun _ _ _ => Rejected;
     storage_download := fun _ _ => Rejected;
     storage_upload := fun _ _ _ _ => Rejected;
     storage_remove := fun _ _ => Rejected;
     Date_now := fun _ => 1700000000000%N;
     JSON_parse := fun _ => None;
     JSON_stringify := fun _ => Rejected |}.

(** [JSON.parse] cut down to the three literals; everything else is taken
    for a syntax error. Enough to run the code on documents that are not
    JSON at all. *)
Definition parse_literal (text : string) : option json :=
  if bool_decide (text = "null") then Some JNull
  else if bool_decide (text = "true") then Some (JBool true)
  else if bool_decide (text = "false") then Some (JBool false)
  else None.

(** A signed-in session of user u1 in front of a store that lists and
    delivers the same thing whenever it is asked, and accepts every upload. *)
Definition remote_of (user : option string) (listing : outcome list_reply)
    (content : string → outcome (option blob)) : env :=
  {| getCurrentUser := user;
     auth_getSession := fun _ => Resolved (Some {| session_user_id := Some "u1" |});
     auth_getUser := fun _ => Resolved (Some "u1");
     storage_list := fun _ _ _ => listing;
     storage_download := fun _ path => content path;
     storage_upload := fun _ _ _ _ => Resolved false;
     storage_remove := fun _ _ => Resolved tt;
     Date_now := fun _ => 1700000000000%N;
     JSON_parse := parse_literal;
     JSON_stringify := fun _ => Resolved "{}" |}.

Definition bg : string := "menuBackgroundBlob".

Definition bg_v1 : string := "1700000000000-menuBackgroundBlob.bin".

Definition bg_v1_path : string :=
  "u1/menuBackgroundBlob/1700000000000-menuBackgroundBlob.bin".

(** One version in the folder, and it can be read. *)
Definition one_version : env :=
  remote_of (Some "u1") (Resolved (ListNames [bg_v1]))
            (fun _ => Resolved (Some png)).

(** One version listed, gone when it is read. *)
Definition vanished : env :=
  remote_of (Some "u1") (Resolved (ListNames [bg_v1])) (fun _ => Resolved None).

(** One version listed, whose bytes are not JSON. *)
Definition garbled : env :=
  remote_of (Some "u1") (Resolved (ListNames [bg_v1]))
            (fun _ => Resolved (Some {| blob_bytes := "{oops";
                                        blob_type := "application/json";
                                        blob_name := None |})).

(** Listing is denied; objects can still be read by their path. *)
Definition list_denied : env :=
  remote_of (Some "u1") (Resolved ListFailed)
            (fun path => if bool_decide (path = bg_v1_path)
                         then Resolved (Some png)
                         else Resolved None).

(** A cache that holds the marker of the one version and nothing else *)
Definition knows_v1 : world :=
  {| idb := {[ "u1__menuBackgroundBlob__remoteVersion" := VJson (JStr bg_v1_path) ]};
     tick := 0 |}.

(** A cache from before owners: a value under the global key *)
Definition legacy : world :=
  {| idb := {[ bg := VBlob png ]}; tick := 0 |}.

Definition named (name : string) : jsval :=
  VBlob {| blob_bytes := "PNG"; blob_type := "image/png";
           blob_name := Some name |}.

Definition bg_v2 : string := "1700000000100-menuBackgroundBlob.bin".

Definition bg_v2_path : string :=
  "u1/menuBackgroundBlob/1700000000100-menuBackgroundBlob.bin".

(** What the two versions hold: the first can be read, the second is gone
    whenever it is read. *)
Definition only_v1_readable (path : string) : outcome (option blob) :=
  if bool_decide (path = bg_v1_path) then Resolved (Some png)
  else Resolved None.

(** Two versions listed, the later one gone when it is read. *)
Definition latest_gone : env :=
  remote_of (Some "u1") (Resolved (ListNames [bg_v1; bg_v2])) only_v1_readable.

(** The later version is deleted right after the first listing of a run:
    the listings made from the fourth remote call on no longer show it. *)
Definition deleted_after_listing : env :=
  {| getCurrentUser := Some "u1";
     auth_getSession := fun _ => Resolved (Some {| session_user_id := Some "u1" |});
     auth_getUser := fun _ => Resolved (Some "u1");
     storage_list := fun t _ _ =>
       if Nat.ltb t 3 then Resolved (ListNames [bg_v1; bg_v2])
       else Resolved (ListNames [bg_v1]);
     storage_download := fun _ path => only_v1_readable path;
     storage_upload := fun _ _ _ _ => Resolved false;
     storage_remove := fun _ _ => Resolved tt;
     Date_now := fun _ => 1700000000000%N;
     JSON_parse := parse_literal;
     JSON_stringify := fun _ => Resolved "{}" |}.

(** A blob edited on this device *)
Definition edited : blob :=
  {| blob_bytes := "EDIT"; blob_type := "image/png"; blob_name := None |}.

(** A cache that holds that blob and the marker of the first version *)
Definition edited_v1 : world :=
  {| idb := {[ "u1__menuBackgroundBlob" := VBlob edited;
               "u1__menuBackgroundBlob__remoteVersion" := VJson (JStr bg_v1_path) ]};
     tick := 0 |}.

(** Signed in, in front of a store whose uploads throw *)
Definition upload_throws : env :=
  {| getCurrentUser := Some "u1";
     auth_getSession := fun _ => Resolved (Some {| session_user_id := Some "u1" |});
     auth_getUser := fun _ => Resolved (Some "u1");
     storage_list := fun _ _ _ => Resolved (ListNames [bg_v1]);
     storage_download := fun _ _ => Resolved (Some png);
     storage_upload := fun _ _ _ _ => Rejected;
     storage_remove := fun _ _ => Resolved tt;
     Date_now := fun _ => 1700000000100%N;
     JSON_parse := parse_literal;
     JSON_stringify := fun _ => Resolved "{}" |}.

(** The store can be reached, but nobody is signed in to it *)
Definition signed_out : env :=
  {| getCurrentUser := Some "u1";
     auth_getSession := fun _ => Resolved None;
     auth_getUser := fun _ => Resolved None;
     storage_list := fun _ _ _ => Resolved ListFailed;
     storage_download := fun _ _ => Resolved None;
     storage_upload := fun _ _ _ _ => Resolved true;
     storage_remove := fun _ _ => Resolved tt;
     Date_now := fun _ => 1700000000100%N;
     JSON_parse := parse_literal;
     JSON_stringify := fun _ => Resolved "{}" |}.

(** A cache that holds a document of owner u2 *)
Definition of_u2 : world :=
  {| idb := {[ "u2__menuLayoutJson" := VJson (JObj []) ]}; tick := 0 |}.

End Examples.

(** * Properties *)

(** ** Strings and scoped keys *)
Section StringFacts.

Lemma str_app_cons (c : ascii) (a b : string) :
  String c a +:+ b = String c (a +:+ b).
Proof. reflexivity. Qed.

Lemma str_length_app (a b : string) :
  String.length (a +:+ b) = String.length a + String.length b.
Proof.
  induction a as [|c a IH]; [done|].
  rewrite str_app_cons. simpl. by rewrite IH.
Qed.

Lemma str_app_assoc (a b c : string) : (a +:+ b) +:+ c = a +:+ b +:+ c.
Proof.
  induction a as [|x a IH]; [done|].
  by rewrite !str_app_cons, IH.
Qed.

Lemma truthy_app (a b : string) :
  Js.truthy_string (a +:+ b) = Js.truthy_string a || Js.truthy_string b.
Proof. by destruct a. Qed.

Lemma truthy_length (s : string) :
  Js.truthy_string s = true ↔ 0 < String.length s.
Proof. destruct s; simpl; split; (done || lia). Qed.

(** A string is never equal to itself with something put in front. *)
Lemma app_ne_self (a s : string) : Js.truthy_string a = true → a +:+ s ≠ s.
Proof.
  intros Ha%truthy_length Heq.
  apply (f_equal String.length) in Heq. rewrite str_length_app in Heq. lia.
Qed.

(** Cancellation of a common ending. *)
Lemma app_inj_r (a b s : string) : a +:+ s = b +:+ s → a = b.
Proof.
  revert b. induction a as [|x a IH]; intros [|y b] Heq.
  - done.
  - apply (f_equal String.length) in Heq.
    rewrite !str_length_app in Heq. simpl in Heq. lia.
  - apply (f_equal String.length) in Heq.
    rewrite !str_length_app in Heq. simpl in Heq. lia.
  - rewrite !str_app_cons in Heq. injection Heq as -> Heq.
    f_equal. by apply IH.
Qed.

(** Two strings that start a same string and are as long as each other are
    the same. *)
Lemma app_inj_length (a b x y : string) :
  a +:+ x = b +:+ y → String.length a = String.length b → a = b.
Proof.
  revert b. induction a as [|c a IH]; intros [|d b]; try done.
  rewrite !str_app_cons. intros [= -> Heq] [= Hlen]. f_equal. by apply IH.
Qed.

Lemma starts_with_app (p s : string) : Js.starts_with p (p +:+ s) = true.
Proof.
  induction p as [|a p IH]; [done|].
  rewrite str_app_cons. simpl. rewrite IH. by rewrite bool_decide_eq_true_2.
Qed.

End StringFacts.

Section Scoping.
Import Storage.

Lemma markerKey_cacheKey (E : env) (key : string) :
  markerKey E key = cacheKey E key +:+ VERSION_SUFFIX.
Proof.
  unfold markerKey, cacheKey, withUserScope, versionKey.
  destruct (getCurrentUser E) as [u|]; [|done].
  destruct (Js.truthy_string u); [|done].
  simpl. by rewrite !str_app_assoc.
Qed.

Lemma markerKey_ne_cacheKey (E : env) (key : string) :
  markerKey E key ≠ cacheKey E key.
Proof.
  rewrite markerKey_cacheKey. intros Heq.
  apply (f_equal String.length) in Heq. rewrite str_length_app in Heq.
  simpl in Heq. lia.
Qed.

Lemma cached_marker_insert (E : env) (key : string) (v : jsval) (w w' : world) :
  idb w' = <[cacheKey E key := v]> (idb w) → marker E key w' = marker E key w.
Proof.
  intros Hidb. unfold marker. rewrite Hidb, lookup_insert_ne; [done|].
  intros Heq. by apply (markerKey_ne_cacheKey E key).
Qed.

End Scoping.

Section TraceFacts.

Lemma listings_app (t1 t2 : list event) :
  listings (t1 ++ t2) = listings t1 ++ listings t2.
Proof. apply omap_app. Qed.

Lemma downloads_app (t1 t2 : list event) :
  downloads (t1 ++ t2) = downloads t1 ++ downloads t2.
Proof. apply omap_app. Qed.

Lemma delivered_app (t1 t2 : list event) :
  delivered (t1 ++ t2) = delivered t1 ++ delivered t2.
Proof. unfold delivered. by rewrite downloads_app, omap_app. Qed.

Lemma accepted_uploads_app (t1 t2 : list event) :
  accepted_uploads (t1 ++ t2) = accepted_uploads t1 ++ accepted_uploads t2.
Proof. apply omap_app. Qed.

Lemma notifications_app (t1 t2 : list event) :
  notifications (t1 ++ t2) = notifications t1 + notifications t2.
Proof. unfold notifications. by rewrite omap_app, length_app. Qed.

Lemma delivered_in_l (b : blob) (t1 t2 : list event) :
  b ∈ delivered t1 → b ∈ delivered (t1 ++ t2).
Proof. rewrite delivered_app. set_solver. Qed.

Lemma delivered_in_r (b : blob) (t1 t2 : list event) :
  b ∈ delivered t2 → b ∈ delivered (t1 ++ t2).
Proof. rewrite delivered_app. set_solver. Qed.

End TraceFacts.

(** ** One step at a time: what each call of lib/cloudAssets.js does *)

Ltac unfold_monad := unfold try_catch, bind, ret, throw, remote in *.

Section CloudSteps.
Import CloudAssets.
Context (E : env).

Lemma hasSession_run (w : world) :
  Storage.hasSession E w =
    (match auth_getSession E (tick w) with
     | Resolved s => Resolved (bool_decide (is_Some s))
     | Rejected => Rejected
     end,
     {| idb := idb w; tick := S (tick w) |}, [EvGetSession]).
Proof.
  unfold Storage.hasSession. unfold_monad.
  by destruct (auth_getSession E (tick w)).
Qed.

Lemma getUserId_run (w : world) :
  getUserId E w =
    (match auth_getSession E (tick w) with
     | Resolved s => Resolved (Js.or_null (s ≫= session_user_id))
     | Rejected => Rejected
     end,
     {| idb := idb w; tick := S (tick w) |}, [EvGetSession]).
Proof.
  unfold getUserId. unfold_monad. by destruct (auth_getSession E (tick w)).
Qed.

Lemma listLatestVersionPath_run (uid key : string) (w : world) :
  let folder := uid +:+ "/" +:+ key in
  let reply := storage_list E (tick w) folder 200 in
  listLatestVersionPath E uid key w =
    (Resolved (latestOf folder reply),
     {| idb := idb w; tick := S (tick w) |}, [EvList folder reply]).
Proof.
  unfold listLatestVersionPath, latestOf. unfold_monad. simpl.
  destruct (storage_list E (tick w) _ 200) as [[|[|n names]]|]; try done.
  by destruct (pick_latest (n :: names)).
Qed.

(** The latest path of a listing always has something in it. *)
Lemma latestOf_truthy (folder : string) (reply : outcome list_reply) (p : string) :
  latestOf folder reply = Some p → Js.truthy_string p = true.
Proof.
  unfold latestOf. destruct reply as [[|names]|]; try done.
  destruct (pick_latest names); simpl; [|done].
  intros [= <-]. rewrite !truthy_app. simpl. by rewrite orb_true_r.
Qed.

(** [uploadAsset]: the cache is not touched, and a path that is returned
    is one the store accepted as a new version. *)
Lemma uploadAsset_run (key : string) (file : jsval) (w : world) :
  ∃ r w' t,
    uploadAsset E key file w = (r, w', t) ∧ idb w' = idb w ∧
    (∀ p, r = Resolved (Some p) → p ∈ accepted_uploads t).
Proof.
  unfold uploadAsset.
  destruct (negb (Js.truthy_string key) || negb (Js.truthy file)); simpl.
  { unfold ret. eexists _, _, _. by repeat split. }
  unfold bind at 1. rewrite getUserId_run.
  destruct (auth_getSession E (tick w)) as [s|].
  2: { eexists _, _, _. by repeat split. }
  destruct (Js.or_null (s ≫= session_user_id)) as [uid|].
  2: { unfold throw. eexists _, _, _. by repeat split. }
  unfold upsertLegacyAsset, ENABLE_LEGACY_MIRROR. unfold_monad. simpl.
  destruct (storage_upload E _ _ file false) as [[|]|] eqn:Hu; simpl;
    eexists _, _, _; repeat split; try done.
  intros ? [= <-]. unfold accepted_uploads. simpl. set_solver.
Qed.

(** The path of a version that [uploadAsset] wrote is made of the user, the
    key, the clock and the file name, and of nothing else. *)
Lemma uploadAsset_path (key : string) (file : jsval) (w w' : world)
    (t : list event) (p : string) :
  uploadAsset E key file w = (Resolved (Some p), w', t) →
  ∃ uid, p = objectPathOf uid key (Date_now E (S (tick w)))
                          (inferredFilename key file).
Proof.
  unfold uploadAsset.
  destruct (negb (Js.truthy_string key) || negb (Js.truthy file)); [done|].
  unfold bind at 1. rewrite getUserId_run.
  destruct (auth_getSession E (tick w)) as [s|]; [|done].
  destruct (Js.or_null (s ≫= session_user_id)) as [uid|]; [|done].
  unfold upsertLegacyAsset, ENABLE_LEGACY_MIRROR. unfold_monad. simpl.
  destruct (storage_upload E _ _ file false) as [[|]|]; simpl; try done.
  intros [= <- _ _]. by exists uid.
Qed.

Lemma uploadJsonAsset_run (key : string) (data : jsval) (w : world) :
  ∃ r w' t,
    uploadJsonAsset E key data w = (r, w', t) ∧ idb w' = idb w ∧
    (∀ p, r = Resolved (Some p) → p ∈ accepted_uploads t).
Proof.
  unfold uploadJsonAsset.
  destruct (negb (Js.truthy_string key)); simpl.
  { unfold ret. eexists _, _, _. by repeat split. }
  destruct (JSON_stringify E _) as [text|].
  - apply uploadAsset_run.
  - unfold throw. eexists _, _, _. by repeat split.
Qed.

End CloudSteps.

(** ** The two saves *)
Section Saves.
Import Storage.
Context (E : env).

Lemma setStoredVersion_run (key : string) (version : option string) (w : world) :
  ∃ w', setStoredVersion E key version w = (Resolved tt, w', []) ∧
        (idb w' = idb w ∨
         ∃ p, version = Some p ∧
              idb w' = <[markerKey E key := VJson (JStr p)]> (idb w)).
Proof.
  unfold setStoredVersion. destruct version as [p|]; [|by eexists; eauto].
  destruct (Js.truthy_string p); [|by eexists; eauto].
  eexists. split; [done|]. right. by exists p.
Qed.

(** The remote half of a save, for any upload that leaves the cache alone
    and only returns paths the store accepted: it never throws, and it
    either leaves the cache as it was or stores an accepted path as the
    marker. *)
Lemma push_run (key : string) (upload : M (option string)) (w : world) :
  (∀ w0, ∃ r w' t, upload w0 = (r, w', t) ∧ idb w' = idb w0 ∧
                   ∀ p, r = Resolved (Some p) → p ∈ accepted_uploads t) →
  ∃ w' t,
    try_catch
      (session <- hasSession E;;
       if negb session then ret tt
       else remotePath <- upload;; setStoredVersion E key remotePath)
      (ret tt) w = (Resolved tt, w', t) ∧
    (idb w' = idb w ∨
     ∃ p, p ∈ accepted_uploads t ∧
          idb w' = <[markerKey E key := VJson (JStr p)]> (idb w)).
Proof.
  intros Hup. unfold try_catch, bind at 1. rewrite hasSession_run.
  destruct (auth_getSession E (tick w)) as [s|]; simpl.
  2: { eexists _, _. split; [done|]. by left. }
  destruct (bool_decide (is_Some s)); simpl.
  2: { eexists _, _. split; [done|]. by left. }
  unfold bind.
  destruct (Hup {| idb := idb w; tick := S (tick w) |})
    as (r & w1 & t1 & -> & Hidb1 & Hacc).
  destruct r as [version|]; simpl.
  2: { eexists _, _. split; [done|]. by left. }
  destruct (setStoredVersion_run key version w1) as (w2 & -> & Hidb2).
  eexists _, _. split; [done|].
  destruct Hidb2 as [->|(p & -> & ->)]; [by left|].
  right. exists p. rewrite Hidb1. split; [|done].
  rewrite app_nil_r. simpl. by apply Hacc.
Qed.

Lemma saveBlob_run (key : string) (v : jsval) (w : world) :
  ∃ w' t,
    saveBlob E key v w = (Resolved tt, w', t) ∧
    (idb w' = <[cacheKey E key := v]> (idb w) ∨
     ∃ p, p ∈ accepted_uploads t ∧
          idb w' = <[markerKey E key := VJson (JStr p)]>
                     (<[cacheKey E key := v]> (idb w))).
Proof.
  unfold saveBlob, bind at 1, Idb.set.
  edestruct (push_run key (CloudAssets.uploadAsset E key v))
    as (w' & t & -> & Hidb); [apply uploadAsset_run|].
  eexists _, _. split; [done|]. apply Hidb.
Qed.

Lemma saveJson_run (key : string) (v : jsval) (w : world) :
  ∃ w' t,
    saveJson E key v w = (Resolved tt, w', t) ∧
    (idb w' = <[cacheKey E key := v]> (idb w) ∨
     ∃ p, p ∈ accepted_uploads t ∧
          idb w' = <[markerKey E key := VJson (JStr p)]>
                     (<[cacheKey E key := v]> (idb w))).
Proof.
  unfold saveJson, bind at 1, Idb.set.
  edestruct (push_run key (CloudAssets.uploadJsonAsset E key v))
    as (w' & t & -> & Hidb); [apply uploadJsonAsset_run|].
  eexists _, _. split; [done|]. apply Hidb.
Qed.

(** After either save the cache holds the value under its scoped key. *)
Lemma save_cached (key : string) (v : jsval) (w w' : world) :
  idb w' = <[cacheKey E key := v]> (idb w) ∨
  (∃ p, idb w' = <[markerKey E key := VJson (JStr p)]>
                   (<[cacheKey E key := v]> (idb w))) →
  idb w' !! cacheKey E key = Some v.
Proof.
  intros [->|(p & ->)].
  - apply lookup_insert_eq.
  - rewrite lookup_insert_ne by apply markerKey_ne_cacheKey.
    apply lookup_insert_eq.
Qed.

(** A local load of a key whose scoped slot holds a value returns it and
    changes nothing. *)
Lemma loadLocalValue_hit (key : string) (v : jsval) (w : world) :
  idb w !! cacheKey E key = Some v → Js.present v = true →
  loadLocalValue E key w = (Resolved v, w, []).
Proof.
  intros Hv Hp. unfold loadLocalValue, cacheKey in *.
  destruct (withUserScope E key) as [scopedKey user]. simpl in *.
  unfold bind, Idb.get. rewrite Hv. simpl. by rewrite Hp.
Qed.

End Saves.

(** ** Saving *)
Section SaveTheorems.
Import Storage.

(** C1 (local durability floor). Whatever the remote side does, and so in
    particular when every remote call fails or there is no session,
    [saveBlob(key, B)] resolves, and a [loadLocalBlob(key)] that follows
    it returns [B] and leaves the cache as the save left it. *)
Theorem saveBlob_then_loadLocalBlob (E : env) (key : string) (B : blob) (w : world) :
  ∃ w1 t1,
    saveBlob E key (VBlob B) w = (Resolved tt, w1, t1) ∧
    loadLocalBlob E key w1 = (Resolved (VBlob B), w1, []).
Proof.
  destruct (saveBlob_run E key (VBlob B) w) as (w1 & t1 & Hrun & Hidb).
  exists w1, t1. split; [done|].
  apply loadLocalValue_hit; [|done].
  apply (save_cached E key (VBlob B) w).
  destruct Hidb as [?|(p & _ & ?)]; [by left | right; by exists p].
Qed.

(** C6 (marker frame on a failed push). When a run of [saveBlob] or of
    [saveJson] had no upload accepted by the store (the session check or
    the upload threw, the store answered with an error, or there was no
    session and no upload was tried), the call resolves all the same and
    the version marker of the key is what it was before. *)
Theorem save_without_push_keeps_marker
    (E : env) (key : string) (v : jsval) (w w' : world)
    (r : outcome unit) (t : list event) :
  saveBlob E key v w = (r, w', t) ∨ saveJson E key v w = (r, w', t) →
  accepted_uploads t = [] →
  r = Resolved tt ∧ marker E key w' = marker E key w.
Proof.
  intros Hrun Hnone.
  assert (r = Resolved tt ∧
          (idb w' = <[cacheKey E key := v]> (idb w) ∨
           ∃ p, p ∈ accepted_uploads t ∧
                idb w' = <[markerKey E key := VJson (JStr p)]>
                           (<[cacheKey E key := v]> (idb w)))) as [-> Hidb].
  { destruct Hrun as [Hrun|Hrun].
    - destruct (saveBlob_run E key v w) as (w1 & t1 & Hrun1 & Hidb).
      rewrite Hrun in Hrun1. by injection Hrun1 as -> -> ->.
    - destruct (saveJson_run E key v w) as (w1 & t1 & Hrun1 & Hidb).
      rewrite Hrun in Hrun1. by injection Hrun1 as -> -> ->. }
  split; [done|].
  destruct Hidb as [Hidb|(p & Hp & _)].
  - by apply (cached_marker_insert E key v).
  - rewrite Hnone in Hp. by apply elem_of_nil in Hp.
Qed.

Lemma save_without_push_keeps_marker_witness :
  let thrown := saveBlob Examples.upload_throws Examples.bg
                  (VBlob Examples.edited) Examples.knows_v1 in
  let skipped := saveJson Examples.signed_out Examples.bg
                   (VJson (JObj [])) Examples.knows_v1 in
  (snd thrown
   = [EvGetSession; EvGetSession;
      EvUpload Examples.bg_v2_path false Rejected] ∧
   marker Examples.upload_throws Examples.bg Examples.knows_v1
   = VJson (JStr Examples.bg_v1_path) ∧
   fst (fst thrown) = Resolved tt ∧
   marker Examples.upload_throws Examples.bg (snd (fst thrown))
   = marker Examples.upload_throws Examples.bg Examples.knows_v1) ∧
  (snd skipped = [EvGetSession] ∧
   fst (fst skipped) = Resolved tt ∧
   marker Examples.signed_out Examples.bg (snd (fst skipped))
   = marker Examples.signed_out Examples.bg Examples.knows_v1).
Proof.
  intros thrown skipped.
  split; [split; [by vm_compute | split; [by vm_compute|]] | split; [by vm_compute|]].
  - apply (save_without_push_keeps_marker Examples.upload_throws Examples.bg
             (VBlob Examples.edited) Examples.knows_v1
             (snd (fst thrown)) (fst (fst thrown)) (snd thrown)).
    + left. by vm_compute.
    + by vm_compute.
  - apply (save_without_push_keeps_marker Examples.signed_out Examples.bg
             (VJson (JObj [])) Examples.knows_v1
             (snd (fst skipped)) (fst (fst skipped)) (snd skipped)).
    + right. by vm_compute.
    + by vm_compute.
Defined.

End SaveTheorems.

(** ** Reconciliation, step by step *)
Section CloudEquations.
Import CloudAssets.
Context (E : env).

(** [getLatestAssetVersion] written out over the answers it gets. *)
Lemma getLatestAssetVersion_eq (key : string) (w : world) :
  getLatestAssetVersion E key w =
    if Js.truthy_string key then
      match auth_getSession E (tick w) with
      | Rejected =>
          (Rejected, {| idb := idb w; tick := S (tick w) |}, [EvGetSession])
      | Resolved s =>
          match Js.or_null (s ≫= session_user_id) with
          | None =>
              (Resolved None, {| idb := idb w; tick := S (tick w) |},
               [EvGetSession])
          | Some uid =>
              let folder := uid +:+ "/" +:+ key in
              let reply := storage_list E (S (tick w)) folder 200 in
              (Resolved (latestOf folder reply),
               {| idb := idb w; tick := S (S (tick w)) |},
               [EvGetSession; EvList folder reply])
          end
      end
    else (Resolved None, w, []).
Proof.
  unfold getLatestAssetVersion.
  destruct (Js.truthy_string key); simpl; [|done].
  unfold bind at 1. rewrite getUserId_run.
  destruct (auth_getSession E (tick w)) as [s|]; [|done].
  destruct (Js.or_null (s ≫= session_user_id)) as [uid|]; [|done].
  unfold bind. rewrite listLatestVersionPath_run. simpl.
  unfold DISABLE_LEGACY_FALLBACK. simpl.
  by destruct (latestOf _ _).
Qed.

(** [downloadAssetBlob] written out over the answers it gets. *)
Lemma downloadAssetBlob_eq (key : string) (w : world) :
  downloadAssetBlob E key w =
    if Js.truthy_string key then
      match auth_getSession E (tick w) with
      | Rejected =>
          (Rejected, {| idb := idb w; tick := S (tick w) |}, [EvGetSession])
      | Resolved s =>
          match Js.or_null (s ≫= session_user_id) with
          | None =>
              (Resolved None, {| idb := idb w; tick := S (tick w) |},
               [EvGetSession])
          | Some uid =>
              let folder := uid +:+ "/" +:+ key in
              let reply := storage_list E (S (tick w)) folder 200 in
              match latestOf folder reply with
              | None =>
                  (Resolved None, {| idb := idb w; tick := S (S (tick w)) |},
                   [EvGetSession; EvList folder reply])
              | Some p =>
                  let got := storage_download E (S (S (tick w))) p in
                  (Resolved (blobOf got),
                   {| idb := idb w; tick := S (S (S (tick w))) |},
                   [EvGetSession; EvList folder reply; EvDownload p got])
              end
          end
      end
    else (Resolved None, w, []).
Proof.
  unfold downloadAssetBlob.
  destruct (Js.truthy_string key); simpl; [|done].
  unfold bind at 1. rewrite getUserId_run.
  destruct (auth_getSession E (tick w)) as [s|]; [|done].
  destruct (Js.or_null (s ≫= session_user_id)) as [uid|]; [|done].
  unfold bind at 1. rewrite listLatestVersionPath_run. simpl.
  destruct (latestOf _ _) as [p|]; [|done].
  unfold upsertLegacyAsset, download, ENABLE_LEGACY_MIRROR,
    DISABLE_LEGACY_FALLBACK. unfold_monad. simpl.
  by destruct (storage_download E (S (S (tick w))) p) as [[b|]|].
Qed.

Lemma downloadAssetBlobByPath_eq (path : string) (w : world) :
  downloadAssetBlobByPath E path w =
    if Js.truthy_string path then
      let got := storage_download E (tick w) path in
      (Resolved (blobOf got), {| idb := idb w; tick := S (tick w) |},
       [EvDownload path got])
    else (Resolved None, w, []).
Proof.
  unfold downloadAssetBlobByPath, download.
  destruct (Js.truthy_string path); simpl; [|done].
  unfold_monad. by destruct (storage_download E (tick w) path) as [[b|]|].
Qed.

End CloudEquations.

(** ** Reconciliation *)

Lemma sameVersion_refl (p : string) :
  Js.truthy_string p = true →
  Storage.sameVersion (VJson (JStr p)) p = true.
Proof.
  intros Hp. unfold Storage.sameVersion. simpl.
  by rewrite Hp, bool_decide_eq_true_2.
Qed.

Lemma sameVersion_latest (folder : string) (reply : outcome list_reply) (p : string) :
  latestOf folder reply = Some p →
  Storage.sameVersion (VJson (JStr p)) p = true.
Proof. intros Hp. apply sameVersion_refl. by eapply latestOf_truthy. Qed.

(** *** Reasoning about one run *)

Section WpRules.
Context {A B : Type}.

Lemma wp_eq (m : M A) (w : world) (X : outcome A * world * list event)
    (Q : outcome A → world → list event → Prop) :
  m w = X → (let '(r, w', t) := X in Q r w' t) → wp m w Q.
Proof. intros Hm HQ r w' t Heq. rewrite Hm in Heq. rewrite Heq in HQ. exact HQ. Qed.

Lemma wp_ret (a : A) (w : world) Q : Q (Resolved a) w [] → wp (ret a) w Q.
Proof. intros HQ r w' t [= <- <- <-]. done. Qed.

Lemma wp_throw (w : world) (Q : outcome A → world → list event → Prop) :
  Q Rejected w [] → wp throw w Q.
Proof. intros HQ r w' t [= <- <- <-]. done. Qed.

Lemma wp_bind (m : M A) (f : A → M B) (w : world) Q :
  wp m w (fun r w1 t1 =>
            match r with
            | Resolved a => wp (f a) w1 (fun r2 w2 t2 => Q r2 w2 (t1 ++ t2))
            | Rejected => Q Rejected w1 t1
            end) →
  wp (bind m f) w Q.
Proof.
  intros Hm r w' t. unfold bind.
  destruct (m w) as [[[a|] w1] t1] eqn:Hrun; specialize (Hm _ _ _ Hrun);
    simpl in Hm.
  - destruct (f a w1) as [[r2 w2] t2] eqn:Hf. intros [= <- <- <-].
    by apply Hm.
  - intros [= <- <- <-]. done.
Qed.

Lemma wp_try_catch (body handler : M A) (w : world) Q :
  wp body w (fun r w1 t1 =>
               match r with
               | Resolved a => Q (Resolved a) w1 t1
               | Rejected => wp handler w1 (fun r2 w2 t2 => Q r2 w2 (t1 ++ t2))
               end) →
  wp (try_catch body handler) w Q.
Proof.
  intros Hm r w' t. unfold try_catch.
  destruct (body w) as [[[a|] w1] t1] eqn:Hrun; specialize (Hm _ _ _ Hrun);
    simpl in Hm.
  - intros [= <- <- <-]. done.
  - destruct (handler w1) as [[r2 w2] t2] eqn:Hf. intros [= <- <- <-].
    by apply Hm.
Qed.

Lemma wp_remote (ask : nat → outcome A) (ev : outcome A → event) (w : world) Q :
  Q (ask (tick w)) {| idb := idb w; tick := S (tick w) |} [ev (ask (tick w))] →
  wp (remote ask ev) w Q.
Proof. intros HQ r w' t [= <- <- <-]. done. Qed.

End WpRules.

Lemma wp_get (key : string) (w : world) Q :
  Q (Resolved (default VUndefined (idb w !! key))) w [] → wp (Idb.get key) w Q.
Proof. intros HQ r w' t [= <- <- <-]. done. Qed.

Lemma wp_set (key : string) (v : jsval) (w : world) Q :
  Q (Resolved tt) {| idb := <[key := v]> (idb w); tick := tick w |} [] →
  wp (Idb.set key v) w Q.
Proof. intros HQ r w' t [= <- <- <-]. done. Qed.

Lemma wp_del (key : string) (w : world) Q :
  Q (Resolved tt) {| idb := delete key (idb w); tick := tick w |} [] →
  wp (Idb.del key) w Q.
Proof. intros HQ r w' t [= <- <- <-]. done. Qed.

(** *** The calls of lib/cloudAssets.js as steps of a run

    Each call leaves the cache alone; what it returns is tied to its trace. *)
Section CloudRules.
Import CloudAssets.
Context (E : env).

Lemma wp_hasSession (w : world) Q :
  (∀ tk, Q Rejected {| idb := idb w; tick := tk |} [EvGetSession]) →
  (∀ tk b, Q (Resolved b) {| idb := idb w; tick := tk |} [EvGetSession]) →
  wp (Storage.hasSession E) w Q.
Proof.
  intros HR HS. eapply wp_eq; [apply hasSession_run|].
  destruct (auth_getSession E (tick w)); [apply HS | apply HR].
Qed.

Lemma wp_getLatestAssetVersion (key : string) (w : world) Q :
  (∀ tk, Q Rejected {| idb := idb w; tick := tk |} [EvGetSession]) →
  (∀ tk t, t = [] ∨ t = [EvGetSession] →
           Q (Resolved None) {| idb := idb w; tick := tk |} t) →
  (∀ tk folder reply,
     Q (Resolved (latestOf folder reply)) {| idb := idb w; tick := tk |}
       [EvGetSession; EvList folder reply]) →
  wp (getLatestAssetVersion E key) w Q.
Proof.
  intros HR HN HL. eapply wp_eq; [apply getLatestAssetVersion_eq|].
  destruct (Js.truthy_string key).
  2: { destruct w. apply HN. by left. }
  destruct (auth_getSession E (tick w)) as [s|]; [|apply HR].
  destruct (Js.or_null (s ≫= session_user_id)) as [uid|]; simpl.
  - apply HL.
  - apply HN. by right.
Qed.

Lemma wp_downloadAssetBlob (key : string) (w : world) Q :
  (∀ tk t, Q Rejected {| idb := idb w; tick := tk |} t) →
  (∀ tk t, Q (Resolved None) {| idb := idb w; tick := tk |} t) →
  (∀ tk t b, b ∈ delivered t →
             Q (Resolved (Some b)) {| idb := idb w; tick := tk |} t) →
  wp (downloadAssetBlob E key) w Q.
Proof.
  intros HR HN HS. eapply wp_eq; [apply downloadAssetBlob_eq|].
  destruct (Js.truthy_string key).
  2: { destruct w. apply HN. }
  destruct (auth_getSession E (tick w)) as [s|]; [|apply HR].
  destruct (Js.or_null (s ≫= session_user_id)) as [uid|]; simpl; [|apply HN].
  destruct (latestOf _ _) as [p|]; [|apply HN].
  destruct (storage_download E _ p) as [[b|]|] eqn:Hd; simpl;
    [|apply HN..].
  apply HS. unfold delivered. simpl. set_solver.
Qed.

Lemma wp_downloadAssetBlobByPath (path : string) (w : world) Q :
  (∀ tk t, Q (Resolved None) {| idb := idb w; tick := tk |} t) →
  (∀ tk t b, b ∈ delivered t →
             Q (Resolved (Some b)) {| idb := idb w; tick := tk |} t) →
  wp (downloadAssetBlobByPath E path) w Q.
Proof.
  intros HN HS. eapply wp_eq; [apply downloadAssetBlobByPath_eq|].
  destruct (Js.truthy_string path).
  2: { destruct w. apply HN. }
  simpl. destruct (storage_download E _ path) as [[b|]|] eqn:Hd; simpl;
    [|apply HN..].
  apply HS. unfold delivered. simpl. set_solver.
Qed.

End CloudRules.

Lemma wp_notify_none (w : world) Q :
  Q (Resolved tt) w [] → wp (Storage.notify None) w Q.
Proof. apply wp_ret. Qed.

Lemma wp_notify_returns (w : world) Q :
  Q (Resolved tt) w [EvNotify] → wp (Storage.notify (Some CbReturns)) w Q.
Proof. intros HQ r w' t [= <- <- <-]. done. Qed.

Lemma wp_notify_throws (w : world) Q :
  Q Rejected w [EvNotify] → wp (Storage.notify (Some CbThrows)) w Q.
Proof. intros HQ r w' t [= <- <- <-]. done. Qed.

Lemma or_null_Some (o : option string) (s : string) :
  Js.or_null o = Some s → o = Some s ∧ Js.truthy_string s = true.
Proof.
  unfold Js.or_null. destruct o as [x|]; simpl; [|done].
  destruct (Js.truthy_string x) eqn:Hx; [|done]. by intros [= <-].
Qed.

Lemma lookup_marker_after_cache (E : env) (key : string) (v : jsval)
    (m : gmap string jsval) :
  <[fst (Storage.withUserScope E key) := v]> m
    !! fst (Storage.withUserScope E (Storage.versionKey key))
  = m !! fst (Storage.withUserScope E (Storage.versionKey key)).
Proof.
  apply lookup_insert_ne. intros Heq. by apply (markerKey_ne_cacheKey E key).
Qed.

Lemma or_null_truthy (s : string) :
  Js.truthy_string s = true → Js.or_null (Some s) = Some s.
Proof. intros Hs. unfold Js.or_null. simpl. by rewrite Hs. Qed.

(** Reuse what is already known. *)
Ltac rewrite_known :=
  repeat first
    [ progress simplify_eq
    | match goal with
      | H : Js.or_null _ = Some _ |- _ => apply or_null_Some in H as [? ?]
      | H : Js.truthy_string ?p = true |- context [Js.or_null (Some ?p)] =>
          rewrite (or_null_truthy p H)
      | H : Js.truthy_string ?p = true
        |- context [Storage.sameVersion (VJson (JStr ?p)) ?p] =>
          rewrite (sameVersion_refl p H)
      | |- context [<[?k := _]> _ !! ?k] =>
          rewrite lookup_insert_eq; cbn [from_option id]
      | |- context [<[fst (Storage.withUserScope ?E ?k) := _]> _
                      !! fst (Storage.withUserScope ?E (Storage.versionKey ?k))] =>
          rewrite lookup_marker_after_cache
      | H : ?x = _ |- context [?x] => rewrite H
      end ].

(** What a nest of matches is waiting for *)
Ltac head_scrutinee x :=
  lazymatch x with
  | match ?y with _ => _ end => head_scrutinee y
  | _ => x
  end.

(** One step of a run; [call] says how the calls of lib/cloudAssets.js are
    taken. *)
Ltac wp_step call :=
  lazymatch goal with
  | |- wp (bind _ _) _ _ => apply wp_bind
  | |- wp (try_catch _ _) _ _ => apply wp_try_catch
  | |- wp (ret _) _ _ => apply wp_ret
  | |- wp throw _ _ => apply wp_throw
  | |- wp (remote _ _) _ _ => apply wp_remote
  | |- wp (Idb.get _) _ _ => apply wp_get
  | |- wp (Idb.set _ _) _ _ => apply wp_set
  | |- wp (Idb.del _) _ _ => apply wp_del
  | |- wp (CloudAssets.downloadJsonAsset _ _) _ _ =>
      unfold CloudAssets.downloadJsonAsset
  | |- wp (Storage.getStoredVersion _ _) _ _ =>
      unfold Storage.getStoredVersion
  | |- wp (Storage.setStoredVersion _ _ _) _ _ =>
      unfold Storage.setStoredVersion
  | |- wp (Storage.notify None) _ _ => apply wp_notify_none
  | |- wp (Storage.notify (Some CbReturns)) _ _ => apply wp_notify_returns
  | |- wp (Storage.notify (Some CbThrows)) _ _ => apply wp_notify_throws
  | |- wp (Storage.notify ?cb) _ _ => destruct cb as [[|]|]
  | |- wp (match ?x with _ => _ end) _ _ =>
      let y := head_scrutinee x in destruct y eqn:?
  | |- wp _ _ _ => call
  | |- match ?x with _ => _ end =>
      let y := head_scrutinee x in destruct y eqn:?
  end;
  intros; cbn beta iota zeta delta [idb tick fst snd].

Ltac wp_run call := repeat (wp_step call; rewrite_known).

Ltac unfold_sync :=
  unfold reconcile, StorageA.syncBlobFromCloud, StorageA.syncJsonFromCloud,
    StorageB.syncBlobFromCloud, StorageB.syncJsonFromCloud.

(** The calls taken for what they are in any environment *)
Ltac any_call :=
  idtac;
  lazymatch goal with
  | |- wp (Storage.hasSession _) _ _ => apply wp_hasSession
  | |- wp (CloudAssets.getLatestAssetVersion _ _) _ _ =>
      apply wp_getLatestAssetVersion
  | |- wp (CloudAssets.downloadAssetBlob _ _) _ _ =>
      apply wp_downloadAssetBlob
  | |- wp (CloudAssets.downloadAssetBlobByPath _ _) _ _ =>
      apply wp_downloadAssetBlobByPath
  end.

(** *** The downloads with the trace they leave *)
Section Traced.
Import CloudAssets.
Context (E : env).

Lemma wp_downloadAssetBlob_traced (key : string) (w : world) Q :
  (∀ tk, Q Rejected {| idb := idb w; tick := tk |} [EvGetSession]) →
  (∀ tk t, downloads t = [] →
           Q (Resolved None) {| idb := idb w; tick := tk |} t) →
  (∀ tk folder listing p got,
     latestOf folder listing = Some p →
     Q (Resolved (blobOf got)) {| idb := idb w; tick := tk |}
       [EvGetSession; EvList folder listing; EvDownload p got]) →
  wp (downloadAssetBlob E key) w Q.
Proof.
  intros HR HN HS. eapply wp_eq; [apply downloadAssetBlob_eq|].
  destruct (Js.truthy_string key).
  2: { destruct w. by apply HN. }
  destruct (auth_getSession E (tick w)) as [s|]; [|apply HR].
  destruct (Js.or_null (s ≫= session_user_id)) as [uid|]; simpl;
    [|by apply HN].
  destruct (latestOf _ _) as [p|] eqn:Hp; [|by apply HN].
  by apply HS.
Qed.

Lemma wp_downloadAssetBlobByPath_traced (path : string) (w : world) Q :
  (∀ tk, Q (Resolved None) {| idb := idb w; tick := tk |} []) →
  (∀ tk got, Q (Resolved (blobOf got)) {| idb := idb w; tick := tk |}
               [EvDownload path got]) →
  wp (downloadAssetBlobByPath E path) w Q.
Proof.
  intros HN HS. eapply wp_eq; [apply downloadAssetBlobByPath_eq|].
  destruct (Js.truthy_string path).
  2: { destruct w. apply HN. }
  apply HS.
Qed.

End Traced.

(** The calls taken with the trace they leave *)
Ltac traced_call :=
  idtac;
  lazymatch goal with
  | |- wp (Storage.hasSession _) _ _ => apply wp_hasSession
  | |- wp (CloudAssets.getLatestAssetVersion _ _) _ _ =>
      apply wp_getLatestAssetVersion
  | |- wp (CloudAssets.downloadAssetBlob _ _) _ _ =>
      apply wp_downloadAssetBlob_traced
  | |- wp (CloudAssets.downloadAssetBlobByPath _ _) _ _ =>
      apply wp_downloadAssetBlobByPath_traced
  end.

Section Reconciliation.
Context (E : env).

(** A reconciler never throws. It either reports [{ updated: false }] and
    leaves the cache as it was, or reports a value that came out of a
    delivered blob. *)
Lemma reconcile_outcome (rev : revision) (k : kind) (key : string)
    (cb : option callback) (w : world) :
  wp (reconcile rev k E key cb) w (fun r w' t =>
    r = Resolved NotUpdated ∧ idb w' = idb w ∨
    ∃ d, r = Resolved (Updated d) ∧ fetched k E d t).
Proof.
  destruct rev, k; unfold_sync; wp_run any_call;
    first [ by left
          | right; eexists; split; [done|]; unfold fetched;
            eexists; split; [by eauto 12 using delivered_in_l, delivered_in_r
                            | by eauto] ].
Qed.

(** A run makes at most one download: of the path the stored marker holds
    when the later revision takes it for the path of a file, and else of
    the latest path of the last listing of the run. *)
Lemma reconcile_reads (rev : revision) (k : kind) (key : string)
    (cb : option callback) (w : world) :
  wp (reconcile rev k E key cb) w (fun r w' t =>
    ∀ path reply, (path, reply) ∈ downloads t →
      downloads t = [(path, reply)] ∧
      (rev = RevB ∧
       StorageB.looksLikeFilePath key (marker E key w) = Some path
       ∨ ∃ folder listing,
           last (listings t) = Some (folder, listing) ∧
           latestOf folder listing = Some path)).
Proof.
  unfold marker, markerKey.
  destruct rev, k; unfold_sync; wp_run traced_call.
  all: repeat match goal with
           | H : _ ∨ _ |- _ => destruct H as [->| ->]
           end.
  all: match goal with
       | Hin : _ ∈ downloads _ |- _ =>
           rewrite ?downloads_app in Hin; simpl in Hin;
           repeat match goal with
             | H : downloads _ = [] |- _ => rewrite H in Hin; simpl in Hin
             end;
           try (by apply elem_of_nil in Hin)
       end.
  all: match goal with
       | Hin : _ ∈ [_] |- _ => apply list_elem_of_singleton in Hin as [= -> ->]
       end.
  all: split; [done|].
  all: first [ left; split; [done|]; done
             | right; eexists _, _; split; [reflexivity | eassumption] ].
Qed.

(** C4 (race tolerance), as the code has it. A run of a reconciler makes
    at most one download, and not of the path its first listing reported:
    it reads the path the stored marker holds when the later revision
    takes that for the path of a file, and else the latest path of the
    listing made again inside [downloadAssetBlob]. When no download of the
    run delivered a blob (the object that was read was gone, or the read
    failed), the run returns [{ updated: false }] and leaves the cache,
    and so the cached value and the version marker, as they were. So it
    does, in particular, when the first listing reports a latest path, the
    last listing of the run reports the same one, the marker is no file
    path other than it, and reading it gives nothing. *)
Theorem nothing_delivered_nothing_changed
    (rev : revision) (k : kind) (key : string) (cb : option callback)
    (w w' : world) (r : outcome sync_result) (t : list event) :
  reconcile rev k E key cb w = (r, w', t) →
  (∀ path reply, (path, reply) ∈ downloads t →
     downloads t = [(path, reply)] ∧
     (rev = RevB ∧
      StorageB.looksLikeFilePath key (marker E key w) = Some path
      ∨ ∃ folder listing,
          last (listings t) = Some (folder, listing) ∧
          latestOf folder listing = Some path)) ∧
  (delivered t = [] →
   r = Resolved NotUpdated ∧ idb w' = idb w ∧
   cached E key w' = cached E key w ∧ marker E key w' = marker E key w) ∧
  (∀ P,
     listed_latest t = Some P →
     (∀ folder listing, last (listings t) = Some (folder, listing) →
                        latestOf folder listing = Some P) →
     (∀ m, rev = RevB →
           StorageB.looksLikeFilePath key (marker E key w) = Some m → m = P) →
     (∀ reply, (P, reply) ∈ downloads t → blobOf reply = None) →
     r = Resolved NotUpdated ∧ idb w' = idb w ∧
     cached E key w' = cached E key w ∧ marker E key w' = marker E key w).
Proof.
  intros Hrun.
  pose proof (reconcile_reads rev k key cb w _ _ _ Hrun) as Hreads.
  cbv beta in Hreads.
  assert (delivered t = [] →
          r = Resolved NotUpdated ∧ idb w' = idb w ∧
          cached E key w' = cached E key w ∧
          marker E key w' = marker E key w) as Hnone.
  { intros Hnone.
    destruct (reconcile_outcome rev k key cb w _ _ _ Hrun)
      as [[-> Hidb]|(d & _ & b & Hb & _)].
    - unfold cached, marker. by rewrite Hidb.
    - rewrite Hnone in Hb. by apply elem_of_nil in Hb. }
  split; [done|]. split; [done|].
  intros P _ Hlast Hmarker Hgone. apply Hnone.
  unfold delivered. destruct (downloads t) as [|[path reply] rest];
    [done|].
  destruct (Hreads path reply) as [Hone Hwhich]; [by left|].
  assert (path = P) as ->.
  { destruct Hwhich as [[Hrev Hm]|(folder & listing & Hl & Hp)].
    - by apply Hmarker.
    - specialize (Hlast _ _ Hl). congruence. }
  injection Hone as ->. simpl.
  rewrite (Hgone reply); [done|]. by left.
Qed.

(** C5 (JSON corruption safety). A run of [syncJsonFromCloud] in which the
    bytes of every delivered blob fail to parse returns
    [{ updated: false }] and leaves the cache, and so the cached document,
    as it was. *)
Theorem unparsable_json_is_not_cached
    (rev : revision) (key : string) (cb : option callback)
    (w w' : world) (r : outcome sync_result) (t : list event) :
  reconcile rev OfJson E key cb w = (r, w', t) →
  (∀ b, b ∈ delivered t → JSON_parse E (blob_bytes b) = None) →
  r = Resolved NotUpdated ∧ idb w' = idb w ∧
  cached E key w' = cached E key w.
Proof.
  intros Hrun Hbad.
  destruct (reconcile_outcome rev OfJson key cb w _ _ _ Hrun)
    as [[-> Hidb]|(d & _ & b & Hb & j & Hj & _)].
  - unfold cached. by rewrite Hidb.
  - rewrite (Hbad b Hb) in Hj. done.
Qed.

(** C3 (cheap no-op on equal versions). When the first listing of a run
    of the listing-only reconciler reports as latest the very path the
    version marker holds, the run returns [{ updated: false }], calls
    [onRemoteDiff] not once, downloads nothing, makes that one listing and
    no other, and leaves the cache, value and marker, as it was. *)
Theorem equal_versions_stop_after_the_listing
    (k : kind) (key : string) (cb : option callback)
    (w w' : world) (r : outcome sync_result) (t : list event) (p : string) :
  reconcile RevA k E key cb w = (r, w', t) →
  listed_latest t = Some p →
  marker E key w = VJson (JStr p) →
  r = Resolved NotUpdated ∧ notifications t = 0 ∧ downloads t = [] ∧
  length (listings t) = 1 ∧ idb w' = idb w.
Proof.
  intros Hrun. revert p.
  revert r w' t Hrun.
  change (wp (reconcile RevA k E key cb) w (fun r w' t =>
            ∀ p, listed_latest t = Some p →
                 marker E key w = VJson (JStr p) →
                 r = Resolved NotUpdated ∧ notifications t = 0 ∧
                 downloads t = [] ∧ length (listings t) = 1 ∧
                 idb w' = idb w)).
  unfold marker, markerKey.
  destruct k; unfold_sync; wp_run any_call;
    repeat match goal with
           | H : _ ∨ _ |- _ => destruct H as [->| ->]
           | H : listed_latest _ = Some _ |- _ =>
               unfold listed_latest in H; simpl in H
           end;
    try done.
  all: simplify_eq.
  all: match goal with
       | Hm : default VUndefined _ = VJson (JStr ?q),
         H : Storage.sameVersion _ ?q = false,
         Ht : Js.truthy_string ?q = true |- _ =>
           rewrite Hm in H; by rewrite (sameVersion_refl _ Ht) in H
       end.
Qed.

End Reconciliation.

(** ** Reconciling twice against a remote side that stays as it is *)
Section Steady.
Import CloudAssets.
Context (E : env) (HE : steady E).

Lemma settled_hasSession : settled (Storage.hasSession E).
Proof.
  intros w. unfold answer. rewrite !hasSession_run. simpl.
  destruct HE as (Hs & _). rewrite (Hs (tick w) 0). by eexists _, _.
Qed.

Lemma settled_getLatestAssetVersion (key : string) :
  settled (getLatestAssetVersion E key).
Proof.
  intros w. unfold answer. rewrite !getLatestAssetVersion_eq. simpl.
  destruct HE as (Hs & Hl & _).
  rewrite (Hs (tick w) 0).
  destruct (Js.truthy_string key).
  2: { destruct w. by eexists _, _. }
  destruct (auth_getSession E 0) as [s|]; [|by eexists _, _].
  destruct (Js.or_null (s ≫= session_user_id)) as [uid|]; simpl;
    [|by eexists _, _].
  rewrite (Hl (S (tick w)) 1). by eexists _, _.
Qed.

Lemma settled_downloadAssetBlob (key : string) :
  settled (downloadAssetBlob E key).
Proof.
  intros w. unfold answer. rewrite !downloadAssetBlob_eq. simpl.
  destruct HE as (Hs & Hl & Hd).
  rewrite (Hs (tick w) 0).
  destruct (Js.truthy_string key).
  2: { destruct w. by eexists _, _. }
  destruct (auth_getSession E 0) as [s|]; [|by eexists _, _].
  destruct (Js.or_null (s ≫= session_user_id)) as [uid|]; simpl;
    [|by eexists _, _].
  rewrite (Hl (S (tick w)) 1).
  destruct (latestOf _ _) as [p|]; [|by eexists _, _].
  rewrite (Hd (S (S (tick w))) 2). by eexists _, _.
Qed.

Lemma settled_downloadAssetBlobByPath (path : string) :
  settled (downloadAssetBlobByPath E path).
Proof.
  intros w. unfold answer. rewrite !downloadAssetBlobByPath_eq. simpl.
  destruct HE as (_ & _ & Hd).
  destruct (Js.truthy_string path).
  2: { destruct w. by eexists _, _. }
  rewrite (Hd (tick w) 0). by eexists _, _.
Qed.

Lemma wp_settled {A} (m : M A) (w : world) Q :
  settled m →
  (∀ tk t, Q (answer m origin) {| idb := idb w; tick := tk |} t) →
  wp m w Q.
Proof.
  intros Hm HQ. destruct (Hm w) as (tk & t & Hrun).
  eapply wp_eq; [exact Hrun|]. apply HQ.
Qed.

Lemma answer_settled {A} (m : M A) (w : world) :
  settled m → answer m w = answer m origin.
Proof.
  intros Hm. destruct (Hm w) as (tk & t & Hrun). unfold answer at 1.
  by rewrite Hrun.
Qed.

(** A version that [getLatestAssetVersion] reports has something in it. *)
Lemma answer_latest_truthy (key : string) (w : world) (p : string) :
  answer (getLatestAssetVersion E key) w = Resolved (Some p) →
  Js.truthy_string p = true.
Proof.
  unfold answer. rewrite getLatestAssetVersion_eq.
  destruct (Js.truthy_string key); [|done].
  destruct (auth_getSession E (tick w)) as [s|]; [|done].
  destruct (Js.or_null (s ≫= session_user_id)) as [uid|]; simpl; [|done].
  intros [= Hp]. by eapply latestOf_truthy.
Qed.

End Steady.

(** The calls taken for what a steady remote side answers *)
Ltac steady_call HE :=
  idtac;
  lazymatch goal with
  | |- wp (Storage.hasSession _) _ _ =>
      apply wp_settled; [apply (settled_hasSession _ HE)|]
  | |- wp (CloudAssets.getLatestAssetVersion _ _) _ _ =>
      apply wp_settled; [apply (settled_getLatestAssetVersion _ HE)|]
  | |- wp (CloudAssets.downloadAssetBlob _ _) _ _ =>
      apply wp_settled; [apply (settled_downloadAssetBlob _ HE)|]
  | |- wp (CloudAssets.downloadAssetBlobByPath _ _) _ _ =>
      apply wp_settled; [apply (settled_downloadAssetBlobByPath _ HE)|]
  end.

Section Idempotence.
Context (E : env) (HE : steady E).

(** What [downloadAssetBlob] delivers it read from a path that
    [getLatestAssetVersion] reports. *)
Lemma delivered_is_listed (key : string) (b : blob) :
  answer (CloudAssets.downloadAssetBlob E key) origin = Resolved (Some b) →
  ∃ p, answer (CloudAssets.getLatestAssetVersion E key) origin
       = Resolved (Some p).
Proof.
  unfold answer. rewrite downloadAssetBlob_eq, getLatestAssetVersion_eq.
  destruct (Js.truthy_string key); [|done]. simpl.
  destruct (auth_getSession E 0) as [s|]; [|done].
  destruct (Js.or_null (s ≫= session_user_id)) as [uid|]; simpl; [|done].
  destruct (latestOf _ _) as [p|]; [|done]. intros _. by exists p.
Qed.

Lemma delivered_by_path (path : string) (b : blob) :
  answer (CloudAssets.downloadAssetBlobByPath E path) origin
  = Resolved (Some b) →
  storage_download E 0 path = Resolved (Some b).
Proof.
  unfold answer. rewrite downloadAssetBlobByPath_eq.
  destruct (Js.truthy_string path); [|done]. simpl.
  by destruct (storage_download E 0 path) as [[b'|]|]; intros [= ->].
Qed.

Lemma no_version_no_delivery (key : string) (b : blob) (a : option string) :
  answer (CloudAssets.downloadAssetBlob E key) origin = Resolved (Some b) →
  answer (CloudAssets.getLatestAssetVersion E key) origin = Resolved a →
  Js.or_null a = None → False.
Proof.
  intros Hd Ha Hn. destruct (delivered_is_listed key b Hd) as [p Hp].
  rewrite Hp in Ha. injection Ha as <-.
  apply (answer_latest_truthy E) in Hp.
  by rewrite (or_null_truthy _ Hp) in Hn.
Qed.

Lemma reconcile_twice (rev : revision) (k : kind) (key : string)
    (cb : option callback) (w : world) :
  wp (reconcile rev k E key cb) w (fun r1 w1 t1 =>
    wp (reconcile rev k E key cb) w1 (fun r2 w2 t2 =>
      idb w2 = idb w1 ∧
      (rev = RevA ∨
       (∃ p, answer (CloudAssets.getLatestAssetVersion E key) origin
             = Resolved (Some p)) →
       r2 = Resolved NotUpdated) ∧
      ((∀ p, answer (CloudAssets.getLatestAssetVersion E key) origin
             ≠ Resolved (Some p)) →
       r2 = r1) ∧
      (∀ d, r2 = Resolved (Updated d) →
            rev = RevB ∧
            ∃ m b,
              StorageB.looksLikeFilePath key (marker E key w1) = Some m ∧
              storage_download E 0 m = Resolved (Some b) ∧
              match k with
              | OfBlob => d = VBlob b
              | OfJson => ∃ j, JSON_parse E (blob_bytes b) = Some j ∧
                               d = VJson j
              end))).
Proof.
  unfold marker, markerKey.
  destruct rev, k; unfold_sync; wp_run ltac:(steady_call HE).
  all: try (exfalso; eapply no_version_no_delivery; eassumption).
  all: split; [first [done | by rewrite insert_insert_eq]|].
  all: split;
    [ first
        [ done
        | intros [?|[p Hp]]; [done|]; simplify_eq;
          match goal with
          | H : answer _ origin = Resolved (Some ?p),
            Hn : Js.or_null (Some ?p) = None |- _ =>
              apply answer_latest_truthy in H;
              by rewrite (or_null_truthy _ H) in Hn
          end ]
    | ].
  all: split;
    [ first [ done | intros Hno; exfalso; by eapply Hno ] | ].
  all: intros d Hd; try discriminate Hd; injection Hd as <-.
  all: split; [done|]; eexists _, _; split; [done|].
  all: split; [by apply delivered_by_path | by eauto].
Qed.

(** C2 (idempotent reconciliation), as the code has it. Against a remote
    side that stays as it is, a second call of the same reconciler with
    the same arguments leaves the cache, value and marker, exactly as the
    first call left it. It returns [{ updated: false }] in the
    listing-only revision, and in the revision that downloads by the
    stored path whenever [getLatestAssetVersion] reports a version. When
    no version is reported it returns what the first call returned; and
    it returns [{ updated: true }] only in the later revision, only when
    the marker is taken for the path of a file and reading that path
    delivers a blob, with that blob, or the document it parses to, as the
    data. *)
Theorem second_reconciliation
    (rev : revision) (k : kind) (key : string) (cb : option callback)
    (w w1 w2 : world) (r1 r2 : outcome sync_result) (t1 t2 : list event) :
  reconcile rev k E key cb w = (r1, w1, t1) →
  reconcile rev k E key cb w1 = (r2, w2, t2) →
  idb w2 = idb w1 ∧
  cached E key w2 = cached E key w1 ∧
  (rev = RevA ∨
   (∃ p, answer (CloudAssets.getLatestAssetVersion E key) w1
         = Resolved (Some p)) →
   r2 = Resolved NotUpdated) ∧
  ((∀ p, answer (CloudAssets.getLatestAssetVersion E key) w1
         ≠ Resolved (Some p)) →
   r2 = r1) ∧
  (r2 = Resolved NotUpdated ∨
   ∃ d m b,
     r2 = Resolved (Updated d) ∧ rev = RevB ∧
     StorageB.looksLikeFilePath key (marker E key w1) = Some m ∧
     (∀ tk, storage_download E tk m = Resolved (Some b)) ∧
     match k with
     | OfBlob => d = VBlob b
     | OfJson => ∃ j, JSON_parse E (blob_bytes b) = Some j ∧ d = VJson j
     end).
Proof.
  intros Hrun1 Hrun2.
  destruct (reconcile_twice rev k key cb w _ _ _ Hrun1 _ _ _ Hrun2)
    as (Hidb & Hr & Hsame & Hup).
  rewrite (answer_settled _ w1 (settled_getLatestAssetVersion E HE key)).
  split; [done|]. split; [unfold cached; by rewrite Hidb|].
  split; [done|]. split; [done|].
  destruct (reconcile_outcome E rev k key cb w1 _ _ _ Hrun2)
    as [[-> _]|(d & -> & _)]; [by left|].
  right. destruct (Hup d eq_refl) as (Hrev & m & b & Hm & Hb & Hd).
  exists d, m, b. repeat split; try done.
  intros tk. destruct HE as (_ & _ & Hdl). by rewrite (Hdl tk 0).
Qed.

End Idempotence.

(** ** The local load and its one-time migration *)
Section LocalLoad.
Import Storage.

Lemma cacheKey_owner (E : env) (owner key : string) :
  getCurrentUser E = Some owner → Js.truthy_string owner = true →
  withUserScope E key = (owner +:+ "__" +:+ key, Some owner).
Proof. intros Hu Ht. unfold withUserScope. by rewrite Hu, Ht. Qed.

Lemma scoped_ne_global (owner key : string) :
  Js.truthy_string owner = true → owner +:+ "__" +:+ key ≠ key.
Proof.
  intros Ht. rewrite <- str_app_assoc. apply app_ne_self.
  rewrite truthy_app. by rewrite Ht.
Qed.

(** A load that finds nothing under the scoped key and nothing under the
    global one returns what the scoped slot gave and changes nothing. *)
Lemma loadLocalValue_miss (E : env) (key : string) (w : world) :
  Js.present (cached E key w) = false →
  Js.present (default VUndefined (idb w !! key)) = false →
  loadLocalValue E key w = (Resolved (cached E key w), w, []).
Proof.
  unfold cached, cacheKey, loadLocalValue.
  destruct (withUserScope E key) as [scopedKey user]. simpl.
  intros Hs Hg. unfold bind, Idb.get. simpl. rewrite Hs.
  destruct (Js.truthy_opt user && negb (bool_decide (scopedKey = key))); [|done].
  simpl. by rewrite Hg.
Qed.

(** C7 (legacy migration). For an owner, with a value under the global,
    unscoped key and nothing under the owner's scoped key: the first local
    load returns the value and leaves the global key without a value; the
    second load returns the value again and changes nothing; and deleting
    the global key once more changes nothing either. *)
Theorem legacy_value_moves_once
    (E : env) (owner key : string) (v : jsval) (w : world) :
  getCurrentUser E = Some owner →
  Js.truthy_string owner = true →
  idb w !! key = Some v →
  Js.present v = true →
  Js.present (cached E key w) = false →
  ∃ w1,
    loadLocalValue E key w = (Resolved v, w1, []) ∧
    idb w1 !! key = None ∧
    loadLocalValue E key w1 = (Resolved v, w1, []) ∧
    ∃ w2, Idb.del key w1 = (Resolved tt, w2, []) ∧ idb w2 = idb w1.
Proof.
  intros Hu Ht Hv Hp Hnone.
  pose proof (scoped_ne_global owner key Ht) as Hne.
  unfold cached, cacheKey in Hnone.
  exists {| idb := delete key (<[owner +:+ "__" +:+ key := v]> (idb w));
            tick := tick w |}.
  split; [|split; [|split]].
  - unfold loadLocalValue. rewrite (cacheKey_owner E owner key Hu Ht) in *.
    simpl in *. unfold bind, Idb.get, Idb.set, Idb.del, ret. simpl.
    rewrite Hnone, Ht. simpl.
    rewrite bool_decide_eq_false_2 by done. simpl. rewrite Hv. simpl. by rewrite Hp.
  - simpl. apply lookup_delete_eq.
  - apply loadLocalValue_hit; [|done]. unfold cacheKey.
    rewrite (cacheKey_owner E owner key Hu Ht). simpl.
    rewrite lookup_delete_ne by done. apply lookup_insert_eq.
  - eexists. split; [done|]. simpl. apply delete_id, lookup_delete_eq.
Qed.

End LocalLoad.

(** ** Removing a key *)
Section Removal.
Context (E : env).

Lemma removeKey_run (rev : revision) (key : string) (w : world) :
  wp (removeKey rev E key) w (fun r w' _ =>
    r = Resolved tt ∧
    idb w' = delete (markerKey E key) (delete (cacheKey E key) (idb w))).
Proof.
  destruct rev; unfold removeKey, StorageA.removeKey, StorageB.removeKey;
    wp_run any_call; done.
Qed.

(** C10 (unconditional local removal). [removeKey(key)] resolves whatever
    the session is and whatever the remote deletion does, and after it
    neither the scoped value nor its version marker is in the cache; a
    local load that follows returns [undefined], provided no value remains
    under the global, unscoped key. *)
Theorem removeKey_clears_the_cache
    (rev : revision) (key : string) (w w' : world)
    (r : outcome unit) (t : list event) :
  removeKey rev E key w = (r, w', t) →
  r = Resolved tt ∧
  idb w' !! cacheKey E key = None ∧
  idb w' !! markerKey E key = None ∧
  (Js.present (default VUndefined (idb w' !! key)) = false →
   Storage.loadLocalValue E key w' = (Resolved VUndefined, w', [])).
Proof.
  intros Hrun. destruct (removeKey_run rev key w _ _ _ Hrun) as [-> Hidb].
  assert (idb w' !! cacheKey E key = None) as Hc.
  { rewrite Hidb, lookup_delete_ne by apply markerKey_ne_cacheKey.
    apply lookup_delete_eq. }
  split; [done|]. split; [done|]. split.
  - rewrite Hidb. apply lookup_delete_eq.
  - intros Hg.
    assert (cached E key w' = VUndefined) as Hu by (unfold cached; by rewrite Hc).
    rewrite loadLocalValue_miss; rewrite ?Hu; done.
Qed.

End Removal.



(** ** Owners *)
Section Owners.
Import Storage.

(** What a local load answers depends on two slots only: the scoped one
    and the global one. *)
Lemma loadLocalValue_reads_two_slots (E : env) (key : string) (w w' : world) :
  idb w' !! cacheKey E key = idb w !! cacheKey E key →
  idb w' !! key = idb w !! key →
  answer (loadLocalValue E key) w' = answer (loadLocalValue E key) w.
Proof.
  unfold answer, cacheKey, loadLocalValue.
  destruct (withUserScope E key) as [scopedKey user]. simpl.
  intros Hs Hg. unfold bind, Idb.get, Idb.set, Idb.del, ret. simpl.
  rewrite Hs.
  destruct (Js.present (default VUndefined (idb w !! scopedKey))); [done|].
  destruct (Js.truthy_opt user && negb (bool_decide (scopedKey = key)));
    [|done].
  simpl. rewrite Hg.
  by destruct (Js.present (default VUndefined (idb w !! key))).
Qed.

Lemma marker_slot_ne_global (E : env) (key : string) : markerKey E key ≠ key.
Proof.
  rewrite markerKey_cacheKey. unfold cacheKey, withUserScope.
  destruct (getCurrentUser E) as [u|]; [destruct (Js.truthy_string u)|];
    simpl; intros Heq; apply (f_equal String.length) in Heq;
    rewrite ?str_length_app in Heq; simpl in Heq; lia.
Qed.

(** The slots a save writes are not the slots the load of another owner
    reads when the two owners are as long as each other and the key that
    is loaded does not start with the scope of the saver. *)
Lemma slots_apart (EA EB : env) (A B key key' : string) :
  getCurrentUser EA = Some A → Js.truthy_string A = true →
  getCurrentUser EB = Some B → Js.truthy_string B = true →
  A ≠ B →
  String.length A = String.length B →
  Js.starts_with (A +:+ "__") key' = false →
  cacheKey EA key ≠ cacheKey EB key' ∧ markerKey EA key ≠ cacheKey EB key' ∧
  cacheKey EA key ≠ key' ∧ markerKey EA key ≠ key'.
Proof.
  intros HA HtA HB HtB HAB Hlen Hpre.
  rewrite markerKey_cacheKey. unfold cacheKey.
  rewrite !(cacheKey_owner EA A _ HA HtA), (cacheKey_owner EB B _ HB HtB).
  simpl.
  assert (∀ k, A +:+ "__" +:+ k ≠ B +:+ "__" +:+ key') as Hscoped.
  { intros k Heq. by apply app_inj_length in Heq. }
  assert (∀ k, A +:+ "__" +:+ k ≠ key') as Hglobal.
  { intros k Heq. rewrite <- Heq, <- str_app_assoc in Hpre.
    by rewrite starts_with_app in Hpre. }
  rewrite !str_app_assoc.
  repeat split; first [apply Hscoped | apply Hglobal].
Qed.

(** C9 (owner scoping), as the code has it. A save made as owner [A]
    does not change what a local load of any key answers to another owner
    [B], as long as neither slot the save writes, that of the value and
    that of the version marker, is one of the two slots the load reads,
    the scoped one and the unscoped one. For a load of the key that was
    saved, that is as long as the slot of [A]'s marker is not the slot of
    [B]'s value; for any key, it is so when the two owners are as long as
    each other and the key that is loaded does not start with the scope
    of [A]. A save made with no current user goes to the global, unscoped
    key, and a load of that key as [B] returns it when [B] has nothing of
    their own under the key. *)
Theorem saves_and_other_owners
    (EA EB : env) (B key key' : string) (v : jsval) (w w1 : world)
    (r : outcome unit) (t : list event) :
  getCurrentUser EB = Some B →
  Js.truthy_string B = true →
  saveBlob EA key v w = (r, w1, t) ∨ saveJson EA key v w = (r, w1, t) →
  (∀ A, getCurrentUser EA = Some A → Js.truthy_string A = true → A ≠ B →
        (cacheKey EA key ≠ cacheKey EB key' ∧
         markerKey EA key ≠ cacheKey EB key' ∧
         cacheKey EA key ≠ key' ∧ markerKey EA key ≠ key')
        ∨ (key' = key ∧ markerKey EA key ≠ cacheKey EB key)
        ∨ (String.length A = String.length B ∧
           Js.starts_with (A +:+ "__") key' = false) →
        answer (loadLocalValue EB key') w1 = answer (loadLocalValue EB key') w)
  ∧
  (Js.truthy_opt (getCurrentUser EA) = false →
   markerKey EA key ≠ cacheKey EB key →
   Js.present v = true →
   Js.present (cached EB key w) = false →
   answer (loadLocalValue EB key) w1 = Resolved v).
Proof.
  intros HB HtB Hrun.
  assert (idb w1 = <[cacheKey EA key := v]> (idb w) ∨
          ∃ p, idb w1 = <[markerKey EA key := VJson (JStr p)]>
                          (<[cacheKey EA key := v]> (idb w))) as Hidb.
  { destruct Hrun as [Hrun|Hrun].
    - destruct (saveBlob_run EA key v w) as (w' & t' & Hrun' & Hidb).
      rewrite Hrun in Hrun'. injection Hrun' as _ <- _.
      destruct Hidb as [?|(p & _ & ?)]; eauto.
    - destruct (saveJson_run EA key v w) as (w' & t' & Hrun' & Hidb).
      rewrite Hrun in Hrun'. injection Hrun' as _ <- _.
      destruct Hidb as [?|(p & _ & ?)]; eauto. }
  assert (∀ k, cacheKey EB k = B +:+ "__" +:+ k) as HkB.
  { intros k. unfold cacheKey. by rewrite (cacheKey_owner EB B k HB HtB). }
  assert (∀ slot, slot ≠ cacheKey EA key → slot ≠ markerKey EA key →
                  idb w1 !! slot = idb w !! slot) as Hframe.
  { intros slot H1 H2. destruct Hidb as [->|(p & ->)];
      rewrite ?(lookup_insert_ne _ (markerKey EA key)) by done;
      by rewrite lookup_insert_ne. }
  split.
  - intros A HA HtA HAB Hslots.
    assert (cacheKey EA key = A +:+ "__" +:+ key) as HkA.
    { unfold cacheKey. by rewrite (cacheKey_owner EA A key HA HtA). }
    assert (cacheKey EA key ≠ cacheKey EB key' ∧
            markerKey EA key ≠ cacheKey EB key' ∧
            cacheKey EA key ≠ key' ∧ markerKey EA key ≠ key')
      as (H1 & H2 & H3 & H4).
    { destruct Hslots as [?|[[-> Hm]|[Hlen Hpre]]]; [done| |].
      - split; [|split; [done|split]].
        + rewrite HkA, HkB. intros Heq. by apply app_inj_r in Heq.
        + rewrite HkA. by apply scoped_ne_global.
        + apply marker_slot_ne_global.
      - by apply (slots_apart EA EB A B). }
    apply loadLocalValue_reads_two_slots; apply Hframe; by apply not_eq_sym.
  - intros HnoA Hslot Hv Hempty.
    assert (cacheKey EA key = key) as HkA.
    { unfold cacheKey, withUserScope. unfold Js.truthy_opt in HnoA.
      destruct (getCurrentUser EA) as [u|]; [by rewrite HnoA | done]. }
    assert (idb w1 !! key = Some v) as Hg.
    { rewrite <- HkA at 1. apply (save_cached EA key v w).
      destruct Hidb as [?|(p & ?)]; eauto. }
    assert (idb w1 !! cacheKey EB key = idb w !! cacheKey EB key) as Hs.
    { apply Hframe; [|by apply not_eq_sym].
      rewrite HkA, HkB. by apply scoped_ne_global. }
    unfold cached in Hempty. unfold answer, loadLocalValue.
    rewrite (cacheKey_owner EB B key HB HtB). rewrite HkB in Hs.
    unfold bind, Idb.get, Idb.set, Idb.del, ret. simpl.
    rewrite Hs. rewrite HkB in Hempty. rewrite Hempty, HtB. simpl.
    rewrite bool_decide_eq_false_2 by (by apply scoped_ne_global).
    simpl. rewrite Hg. simpl. by rewrite Hv.
Qed.

(** C9 as stated fails. A blob saved while nobody is signed in is returned
    to the owner who signs in next and loads the key. And a scoped key is
    the owner, two underscores and the key put together, which two owners
    can reach with different keys: what owner a saved under b__x is what
    owner a__b loads under x; and what owner a saved under x lies where
    another owner's load of the key a__x looks for an unscoped value, so
    that load returns it and moves it away from a. *)
Lemma saves_reach_other_owners :
  let as_owner := fun u => Examples.unreachable_as (Some u) in
  (let saved := snd (fst (saveBlob (Examples.unreachable_as None) Examples.bg
                            (VBlob Examples.png) origin)) in
   answer (loadLocalBlob (as_owner "bob") Examples.bg) saved
   = Resolved (VBlob Examples.png)) ∧
  (let saved := snd (fst (saveBlob (as_owner "a") "b__x"
                            (VBlob Examples.png) origin)) in
   "a" ≠ "a__b" ∧
   answer (loadLocalBlob (as_owner "a__b") "x") saved
   = Resolved (VBlob Examples.png)) ∧
  (let saved := snd (fst (saveBlob (as_owner "a") "x"
                            (VBlob Examples.png) origin)) in
   let read := loadLocalBlob (as_owner "bob") "a__x" saved in
   "a" ≠ "bob" ∧
   fst (fst read) = Resolved (VBlob Examples.png) ∧
   answer (loadLocalBlob (as_owner "a") "x") saved
   = Resolved (VBlob Examples.png) ∧
   answer (loadLocalBlob (as_owner "a") "x") (snd (fst read))
   = Resolved VUndefined).
Proof. by vm_compute. Qed.

End Owners.

(** ** Version names *)
Section VersionNames.
Import CloudAssets.
Local Open Scope N_scope.

Lemma str_app_empty_r (s : string) : s +:+ EmptyString = s.
Proof. induction s as [|c s IH]; [done|]. by rewrite str_app_cons, IH. Qed.

Lemma value_from_app (acc : N) (a b : string) :
  value_from acc (a +:+ b) = value_from (value_from acc a) b.
Proof.
  revert acc. induction a as [|c a IH]; intros acc; [done|].
  rewrite str_app_cons. simpl. apply IH.
Qed.

Lemma all_digits_app (a b : string) :
  all_digits a → all_digits b → all_digits (a +:+ b).
Proof.
  induction a as [|c a IH]; [done|].
  rewrite str_app_cons. simpl. intros [Hc Ha] Hb. auto.
Qed.

Lemma digit_char_code (d : N) : d < 10 → N_of_ascii (digit_char d) = 48 + d.
Proof.
  intros Hd. unfold digit_char. apply N_ascii_embedding. lia.
Qed.

(** [decimal_go] puts in front of what it was given the digits of its
    argument, most significant first. *)
Lemma decimal_go_spec (fuel : nat) (n : N) (acc : string) :
  n < 2 ^ N.of_nat fuel →
  ∃ pre, decimal_go fuel n acc = pre +:+ acc ∧ all_digits pre ∧ value pre = n.
Proof.
  revert n acc. induction fuel as [|fuel IH]; intros n acc Hn.
  - exists EmptyString. change (2 ^ N.of_nat 0) with 1 in Hn.
    split; [done|]. split; [done|].
    unfold value. simpl. lia.
  - assert (n mod 10 < 10) as Hd by (apply N.mod_lt; lia).
    simpl decimal_go. destruct (n <? 10) eqn:Hlt.
    + apply N.ltb_lt in Hlt.
      exists (String (digit_char (n mod 10)) EmptyString).
      split; [done|]. unfold value. cbn [value_from all_digits].
      unfold is_digit.
      rewrite N.mod_small by done.
      rewrite !digit_char_code by done. repeat split; lia.
    + apply N.ltb_ge in Hlt.
      destruct (IH (n / 10) (String (digit_char (n mod 10)) acc))
        as (pre & Heq & Hdig & Hval).
      { rewrite Nat2N.inj_succ, N.pow_succ_r' in Hn.
        apply N.Div0.div_lt_upper_bound. lia. }
      exists (pre +:+ String (digit_char (n mod 10)) EmptyString).
      split; [by rewrite Heq, str_app_assoc|].
      split.
      * apply all_digits_app; [done|]. cbn [all_digits]. unfold is_digit.
        rewrite !digit_char_code by done.
        generalize dependent (n mod 10). intros; split; [lia|done].
      * unfold value in *. rewrite value_from_app, Hval. cbn [value_from].
        rewrite digit_char_code by done.
        pose proof (N.Div0.div_mod n 10) as Hdm.
        generalize dependent (n mod 10). generalize dependent (n / 10).
        intros; lia.
Qed.

Lemma decimal_spec (n : N) : all_digits (decimal n) ∧ value (decimal n) = n.
Proof.
  destruct (decimal_go_spec (S (N.to_nat (N.log2 n))) n EmptyString)
    as (pre & Heq & Hdig & Hval).
  { rewrite Nat2N.inj_succ, N2Nat.id.
    destruct (N.eq_dec n 0) as [->|Hn]; [done|].
    apply N.log2_spec. lia. }
  unfold decimal. rewrite Heq, str_app_empty_r. done.
Qed.

(** With as many digits on both sides, the greater start stays greater. *)
Lemma value_from_lt (a b : string) (acc1 acc2 : N) :
  String.length a = String.length b → all_digits a → all_digits b →
  acc1 < acc2 → value_from acc1 a < value_from acc2 b.
Proof.
  revert b acc1 acc2.
  induction a as [|c a IH]; intros [|d b] acc1 acc2 Hlen Ha Hb Hacc;
    cbn [value_from all_digits String.length] in *; try done.
  destruct Ha as [Hc Ha], Hb as [Hd Hb]. unfold is_digit in *.
  apply IH; [lia|done|done|lia].
Qed.

(** Numerals of the same length compare as the numbers they denote. *)
Lemma digits_compare (a b : string) (acc : N) :
  String.length a = String.length b → all_digits a → all_digits b →
  value_from acc a < value_from acc b → String.compare a b = Lt.
Proof.
  revert b acc.
  induction a as [|c a IH]; intros [|d b] acc Hlen Ha Hb Hval;
    cbn [value_from all_digits String.length String.compare] in *;
    try done; try lia.
  destruct Ha as [Hc Ha], Hb as [Hd Hb]. unfold is_digit in *.
  unfold Ascii.compare.
  destruct (N.compare_spec (N_of_ascii c) (N_of_ascii d)) as [Heq|Hlt|Hgt].
  - rewrite Heq in Hval. eapply IH; [lia|done|done|exact Hval].
  - done.
  - exfalso.
    assert (value_from (10 * acc + (N_of_ascii d - 48)) b
            < value_from (10 * acc + (N_of_ascii c - 48)) a).
    { apply value_from_lt; [lia|done|done|lia]. }
    lia.
Qed.

Lemma compare_app_lt (a b s1 s2 : string) :
  String.length a = String.length b → String.compare a b = Lt →
  String.compare (a +:+ s1) (b +:+ s2) = Lt.
Proof.
  revert b. induction a as [|c a IH]; intros [|d b] Hlen Hcmp;
    simpl in *; try done.
  rewrite ?str_app_cons. simpl.
  destruct (Ascii.compare c d); [|done..].
  apply IH; [lia|done].
Qed.

Lemma compare_refl (s : string) : String.compare s s = Eq.
Proof.
  induction s as [|c s IH]; [done|]. simpl.
  unfold Ascii.compare. by rewrite N.compare_refl.
Qed.

Lemma compare_app_same (a s1 s2 : string) :
  String.compare (a +:+ s1) (a +:+ s2) = String.compare s1 s2.
Proof.
  induction a as [|c a IH]; [done|]. rewrite !str_app_cons. simpl.
  unfold Ascii.compare. by rewrite N.compare_refl.
Qed.

(** The later of two timestamps with as many digits gives the later name,
    whatever the file names are. *)
Lemma versionName_lt (t1 t2 : N) (f1 f2 : string) :
  t1 < t2 → String.length (decimal t1) = String.length (decimal t2) →
  String.ltb (versionName t1 f1) (versionName t2 f2) = true.
Proof.
  intros Hlt Hlen. unfold String.ltb, versionName.
  rewrite compare_app_lt; [done|done|].
  destruct (decimal_spec t1) as [Hd1 Hv1], (decimal_spec t2) as [Hd2 Hv2].
  apply (digits_compare _ _ 0); try done.
  unfold value in *. lia.
Qed.

End VersionNames.

Section Latest.
Import CloudAssets.

Lemma head_insert_sorted (x : string) (l : list string) :
  head (insert_sorted x l) =
    Some (match head l with
          | None => x
          | Some y => if comes_after x y then y else x
          end).
Proof. destruct l as [|y l]; simpl; [done|]. by destruct (comes_after x y). Qed.

Lemma max_name_cons (x : string) (l : list string) :
  max_name (x :: l) =
    Some (match max_name l with
          | None => x
          | Some y => if comes_after x y then y else x
          end).
Proof. unfold max_name. simpl. by destruct (foldr _ None l). Qed.

(** The first name after sorting is the greatest name. *)
Lemma head_sort_names (l : list string) : head (sort_names l) = max_name l.
Proof.
  induction l as [|x l IH]; [done|].
  rewrite max_name_cons, <- IH. unfold sort_names. simpl.
  apply head_insert_sorted.
Qed.

Lemma max_name_in (l : list string) (y : string) :
  max_name l = Some y → y ∈ l.
Proof.
  revert y. induction l as [|x l IH]; intros y; [done|].
  rewrite max_name_cons. destruct (max_name l) as [z|].
  - intros [= <-]. destruct (comes_after x z); [|by left].
    right. by apply IH.
  - intros [= <-]. by left.
Qed.

Lemma ltb_irrefl (s : string) : String.ltb s s = false.
Proof. unfold String.ltb. by rewrite compare_refl. Qed.

Lemma ltb_asym (a b : string) : String.ltb a b = true → String.ltb b a = false.
Proof.
  unfold String.ltb. rewrite (String.compare_antisym a b).
  by destruct (String.compare b a).
Qed.

(** A name that every other name of the list is below is the greatest. *)
Lemma max_name_greatest (l : list string) (m : string) :
  m ∈ l → (∀ x, x ∈ l → x = m ∨ String.ltb x m = true) →
  max_name l = Some m.
Proof.
  induction l as [|x l IH]; intros Hin Hall; [by apply elem_of_nil in Hin|].
  rewrite max_name_cons. f_equal.
  assert (∀ y, y ∈ l → y = m ∨ String.ltb y m = true) as Hall'.
  { intros y Hy. apply Hall. by right. }
  assert (x = m ∨ String.ltb x m = true) as Hx by (apply Hall; by left).
  destruct (max_name l) as [z|] eqn:Hz.
  - assert (z ∈ l) as Hzl by (by apply max_name_in).
    destruct (Hall' z Hzl) as [->|Hzm].
    + destruct Hx as [->|Hxm]; unfold comes_after.
      * by rewrite ltb_irrefl.
      * by rewrite Hxm.
    + assert (m ∉ l) as Hnot.
      { intros Hml. pose proof (IH Hml Hall') as [= ->].
        by rewrite ltb_irrefl in Hzm. }
      apply elem_of_cons in Hin as [->|?]; [|done].
      unfold comes_after. by rewrite (ltb_asym _ _ Hzm).
  - apply elem_of_cons in Hin as [->|Hml]; [done|].
    by pose proof (IH Hml Hall').
Qed.

Lemma versionName_truthy (t : N) (f : string) :
  Js.truthy_string (versionName t f) = true.
Proof.
  unfold versionName. rewrite !truthy_app. simpl. by rewrite orb_true_r.
Qed.

Lemma filter_truthy_names (writes : list (N * string)) :
  filter (fun n => Is_true (Js.truthy_string n))
         ((fun '(t, f) => versionName t f) <$> writes)
  = (fun '(t, f) => versionName t f) <$> writes.
Proof.
  induction writes as [|[t f] l IH]; [done|].
  rewrite fmap_cons, filter_cons_True; [by rewrite IH|].
  by rewrite versionName_truthy.
Qed.

(** C8 (version naming), as the code has it. In a folder where one write
    has a timestamp greater than that of every other write, with as many
    decimal digits, the name of that write sorts after every other name
    whatever the file names are, it is the name that is picked as the
    latest, and the listing makes its path the latest path. Names made in
    the same millisecond compare as their file names do. *)
Theorem greatest_timestamp_is_picked
    (writes : list (N * string)) (t : N) (f : string) (folder : string) :
  (t, f) ∈ writes →
  (∀ t' f', (t', f') ∈ writes →
            (t', f') = (t, f) ∨
            (t' < t)%N ∧
            String.length (decimal t') = String.length (decimal t)) →
  let names := (fun '(t, f) => versionName t f) <$> writes in
  (∀ t' f', (t', f') ∈ writes → (t', f') ≠ (t, f) →
            String.ltb (versionName t' f') (versionName t f) = true) ∧
  pick_latest names = Some (versionName t f) ∧
  latestOf folder (Resolved (ListNames names))
  = Some (folder +:+ "/" +:+ normalizeName (versionName t f)) ∧
  (∀ f1 f2, String.compare (versionName t f1) (versionName t f2)
            = String.compare f1 f2).
Proof.
  intros Hin Hall names.
  assert (∀ t' f', (t', f') ∈ writes → (t', f') ≠ (t, f) →
                   String.ltb (versionName t' f') (versionName t f) = true)
    as Hlt.
  { intros t' f' Hin' Hne. destruct (Hall t' f' Hin') as [?|[? ?]]; [done|].
    by apply versionName_lt. }
  assert (pick_latest names = Some (versionName t f)) as Hpick.
  { unfold pick_latest, names. rewrite filter_truthy_names, head_sort_names.
    apply max_name_greatest.
    - apply (list_elem_of_fmap_2 (fun '(t, f) => versionName t f) _ (t, f)).
      done.
    - intros x Hx. apply list_elem_of_fmap in Hx as ([t' f'] & -> & Hin').
      destruct (decide ((t', f') = (t, f))) as [[= -> ->]|Hne]; [by left|].
      right. by apply Hlt. }
  split; [done|]. split; [done|]. split.
  - unfold latestOf. fold names. by rewrite Hpick.
  - intros f1 f2. unfold versionName.
    by rewrite compare_app_same, (compare_app_same "-").
Qed.

Lemma greatest_timestamp_is_picked_witness :
  pick_latest [versionName 1700000000000 "menuBackgroundBlob.bin";
               versionName 1700000000100 "menuBackgroundBlob.bin"]
  = Some (versionName 1700000000100 "menuBackgroundBlob.bin").
Proof.
  apply (greatest_timestamp_is_picked
           [(1700000000000%N, "menuBackgroundBlob.bin");
            (1700000000100%N, "menuBackgroundBlob.bin")]
           1700000000100%N "menuBackgroundBlob.bin" "u1/menuBackgroundBlob").
  - apply elem_of_cons. right. apply elem_of_cons. by left.
  - intros t' f' Hin.
    apply elem_of_cons in Hin as [[= -> ->]|Hin].
    + right. split; [lia | reflexivity].
    + apply elem_of_cons in Hin as [[= -> ->]|Hin]; [by left|].
      by apply elem_of_nil in Hin.
Defined.

(** C8 as stated fails: two files uploaded in the same millisecond get
    names that differ in the file name only, the one written first sorts
    last, and it is the one picked as the latest. *)
Lemma same_millisecond_is_ordered_by_file_name :
  let E := Examples.remote_of (Some "u1") (Resolved ListFailed)
                            (fun _ => Resolved None) in
  let first := uploadAsset E Examples.bg (Examples.named "b.png") origin in
  let second := uploadAsset E Examples.bg (Examples.named "a.png") (snd (fst first)) in
  fst (fst first) = Resolved (Some "u1/menuBackgroundBlob/1700000000000-b.png") ∧
  fst (fst second) = Resolved (Some "u1/menuBackgroundBlob/1700000000000-a.png") ∧
  String.ltb "1700000000000-b.png" "1700000000000-a.png" = false ∧
  pick_latest ["1700000000000-b.png"; "1700000000000-a.png"]
  = Some "1700000000000-b.png".
Proof. vm_compute. done. Qed.

End Latest.

(** ** The statements above at work *)
Section Runs.
Import Examples.

Lemma steady_remote_of (user : option string) (listing : outcome list_reply)
    (content : string → outcome (option blob)) :
  steady (remote_of user listing content).
Proof. by repeat split. Qed.

(** C2 as stated fails for the revision that downloads by the stored path:
    with the listing denied, a marker that is taken for the path of a file
    and an object that can be read at that path, the second call downloads
    the path again and reports an update, as the first did. *)
Lemma second_reconciliation_updates_again :
  let first := reconcile RevB OfBlob list_denied bg None knows_v1 in
  let second := reconcile RevB OfBlob list_denied bg None (snd (fst first)) in
  steady list_denied ∧
  fst (fst first) = Resolved (Updated (VBlob Examples.png)) ∧
  fst (fst second) = Resolved (Updated (VBlob Examples.png)).
Proof. split; [apply steady_remote_of | by vm_compute]. Qed.

Lemma second_reconciliation_witness :
  let first := reconcile RevB OfBlob one_version bg None origin in
  let second := reconcile RevB OfBlob one_version bg None (snd (fst first)) in
  idb (snd (fst second)) = idb (snd (fst first)) ∧
  cached one_version bg (snd (fst second)) = cached one_version bg (snd (fst first)) ∧
  (RevB = RevA ∨
   (∃ p, answer (CloudAssets.getLatestAssetVersion one_version bg) (snd (fst first))
         = Resolved (Some p)) →
   fst (fst second) = Resolved NotUpdated) ∧
  ((∀ p, answer (CloudAssets.getLatestAssetVersion one_version bg) (snd (fst first))
         ≠ Resolved (Some p)) →
   fst (fst second) = fst (fst first)) ∧
  (fst (fst second) = Resolved NotUpdated ∨
   ∃ d m b,
     fst (fst second) = Resolved (Updated d) ∧ RevB = RevB ∧
     StorageB.looksLikeFilePath bg (marker one_version bg (snd (fst first)))
     = Some m ∧
     (∀ tk, storage_download one_version tk m = Resolved (Some b)) ∧
     d = VBlob b).
Proof.
  intros first second.
  apply (second_reconciliation one_version (steady_remote_of _ _ _)
           RevB OfBlob bg None origin (snd (fst first)) (snd (fst second))
           (fst (fst first)) (fst (fst second)) (snd first) (snd second)).
  - by vm_compute.
  - by vm_compute.
Defined.

Lemma equal_versions_stop_after_the_listing_witness :
  let run := reconcile RevA OfBlob one_version bg (Some CbReturns) knows_v1 in
  fst (fst run) = Resolved NotUpdated ∧ notifications (snd run) = 0 ∧
  downloads (snd run) = [] ∧ length (listings (snd run)) = 1 ∧
  idb (snd (fst run)) = idb knows_v1.
Proof.
  intros run.
  apply (equal_versions_stop_after_the_listing one_version OfBlob bg
           (Some CbReturns) knows_v1 (snd (fst run)) (fst (fst run)) (snd run)
           bg_v1_path).
  - by vm_compute.
  - by vm_compute.
  - by vm_compute.
Defined.

(** C4 as stated fails: the object a run reads is not the one its first
    listing reported. In the listing-only revision the folder is listed
    again before the read; when the latest object is deleted in between,
    the earlier version is read, it replaces the cached value, and the
    marker is set to the path that is gone. In the later revision the
    path the marker holds is read, whatever the listing reported. *)
Lemma vanished_latest_still_updates :
  let runA := reconcile RevA OfBlob deleted_after_listing bg None edited_v1 in
  let runB := reconcile RevB OfBlob latest_gone bg None edited_v1 in
  (cached latest_gone bg edited_v1 = VBlob edited ∧
   marker latest_gone bg edited_v1 = VJson (JStr bg_v1_path)) ∧
  (listed_latest (snd runA) = Some bg_v2_path ∧
   (∀ tk, storage_download deleted_after_listing tk bg_v2_path
          = Resolved None) ∧
   fst (fst runA) = Resolved (Updated (VBlob png)) ∧
   cached deleted_after_listing bg (snd (fst runA)) = VBlob png ∧
   marker deleted_after_listing bg (snd (fst runA))
   = VJson (JStr bg_v2_path)) ∧
  (steady latest_gone ∧
   listed_latest (snd runB) = Some bg_v2_path ∧
   (∀ tk, storage_download latest_gone tk bg_v2_path = Resolved None) ∧
   fst (fst runB) = Resolved (Updated (VBlob png)) ∧
   cached latest_gone bg (snd (fst runB)) = VBlob png ∧
   marker latest_gone bg (snd (fst runB)) = VJson (JStr bg_v2_path)).
Proof.
  split; [by vm_compute|]. split.
  - split; [by vm_compute|]. split; [intros tk; by vm_compute|].
    by vm_compute.
  - split; [apply steady_remote_of|]. split; [by vm_compute|].
    split; [intros tk; by vm_compute|]. by vm_compute.
Qed.

Lemma nothing_delivered_nothing_changed_witness :
  let run := reconcile RevA OfBlob latest_gone bg None edited_v1 in
  (downloads (snd run) = [(bg_v2_path, Resolved None)] ∧
   delivered (snd run) = [] ∧
   listed_latest (snd run) = Some bg_v2_path) ∧
  (∀ path reply, (path, reply) ∈ downloads (snd run) →
     downloads (snd run) = [(path, reply)] ∧
     (RevA = RevB ∧
      StorageB.looksLikeFilePath bg (marker latest_gone bg edited_v1)
      = Some path
      ∨ ∃ folder listing,
          last (listings (snd run)) = Some (folder, listing) ∧
          latestOf folder listing = Some path)) ∧
  (delivered (snd run) = [] →
   fst (fst run) = Resolved NotUpdated ∧ idb (snd (fst run)) = idb edited_v1 ∧
   cached latest_gone bg (snd (fst run)) = cached latest_gone bg edited_v1 ∧
   marker latest_gone bg (snd (fst run)) = marker latest_gone bg edited_v1) ∧
  (∀ P,
     listed_latest (snd run) = Some P →
     (∀ folder listing, last (listings (snd run)) = Some (folder, listing) →
                        latestOf folder listing = Some P) →
     (∀ m, RevA = RevB →
           StorageB.looksLikeFilePath bg (marker latest_gone bg edited_v1)
           = Some m → m = P) →
     (∀ reply, (P, reply) ∈ downloads (snd run) → blobOf reply = None) →
     fst (fst run) = Resolved NotUpdated ∧ idb (snd (fst run)) = idb edited_v1 ∧
     cached latest_gone bg (snd (fst run)) = cached latest_gone bg edited_v1 ∧
     marker latest_gone bg (snd (fst run)) = marker latest_gone bg edited_v1).
Proof.
  intros run. split; [by vm_compute|].
  apply (nothing_delivered_nothing_changed latest_gone RevA OfBlob bg None
           edited_v1 (snd (fst run)) (fst (fst run)) (snd run)).
  by vm_compute.
Defined.

Lemma unparsable_json_is_not_cached_witness :
  let run := reconcile RevB OfJson garbled bg None origin in
  fst (fst run) = Resolved NotUpdated ∧ idb (snd (fst run)) = idb origin ∧
  cached garbled bg (snd (fst run)) = cached garbled bg origin.
Proof.
  intros run.
  apply (unparsable_json_is_not_cached garbled RevB bg None origin
           (snd (fst run)) (fst (fst run)) (snd run)).
  - by vm_compute.
  - intros b Hb. vm_compute in Hb.
    apply list_elem_of_singleton in Hb. by subst.
Defined.

Lemma legacy_value_moves_once_witness :
  ∃ w1,
    Storage.loadLocalValue (unreachable_as (Some "u1")) bg legacy
    = (Resolved (VBlob Examples.png), w1, []) ∧
    idb w1 !! bg = None ∧
    Storage.loadLocalValue (unreachable_as (Some "u1")) bg w1
    = (Resolved (VBlob Examples.png), w1, []) ∧
    ∃ w2, Idb.del bg w1 = (Resolved tt, w2, []) ∧ idb w2 = idb w1.
Proof.
  apply (legacy_value_moves_once (unreachable_as (Some "u1")) "u1" bg
           (VBlob Examples.png) legacy); reflexivity.
Defined.

Lemma removeKey_clears_the_cache_witness :
  let E := unreachable_as (Some "u1") in
  let run := removeKey RevB E bg knows_v1 in
  fst (fst run) = Resolved tt ∧
  idb (snd (fst run)) !! cacheKey E bg = None ∧
  idb (snd (fst run)) !! markerKey E bg = None ∧
  (Js.present (default VUndefined (idb (snd (fst run)) !! bg)) = false →
   Storage.loadLocalValue E bg (snd (fst run))
   = (Resolved VUndefined, snd (fst run), [])).
Proof.
  intros E run.
  apply (removeKey_clears_the_cache E RevB bg knows_v1
           (snd (fst run)) (fst (fst run)) (snd run)).
  by vm_compute.
Defined.

Lemma saves_and_other_owners_witness :
  let u1 := unreachable_as (Some "u1") in
  let u2 := unreachable_as (Some "u2") in
  let anon := unreachable_as None in
  let run := Storage.saveBlob u1 bg (VBlob png) of_u2 in
  let unscoped := Storage.saveBlob anon bg (VBlob png) of_u2 in
  (answer (Storage.loadLocalValue u2 "menuLayoutJson") (snd (fst run))
   = answer (Storage.loadLocalValue u2 "menuLayoutJson") of_u2 ∧
   answer (Storage.loadLocalValue u2 "menuLayoutJson") of_u2
   = Resolved (VJson (JObj []))) ∧
  answer (Storage.loadLocalValue u2 bg) (snd (fst unscoped))
  = Resolved (VBlob png).
Proof.
  intros u1 u2 anon run unscoped. split; [split|].
  - apply (proj1 (saves_and_other_owners u1 u2 "u2" bg "menuLayoutJson"
                    (VBlob png) of_u2 (snd (fst run)) (fst (fst run))
                    (snd run) eq_refl eq_refl (or_introl eq_refl)) "u1");
      [reflexivity | reflexivity | done |].
    right. right. by vm_compute.
  - reflexivity.
  - apply (proj2 (saves_and_other_owners anon u2 "u2" bg bg
                    (VBlob png) of_u2 (snd (fst unscoped))
                    (fst (fst unscoped)) (snd unscoped)
                    eq_refl eq_refl (or_introl eq_refl)));
      [reflexivity | by vm_compute | reflexivity | reflexivity].
Defined.

End Runs.
